(** * hookform-controller-proxy: a shallow embedding of [src/index.tsx]

    The module under verification is a thin adapter between react-hook-form
    and a component library.  It has three runtime pieces:

    - [createControllerProxy] / [createControllerProxyImpl]: a [Proxy] whose
      [get] trap accumulates a path of property keys and whose [apply] trap
      creates a [FieldController] element for the accumulated path;
    - [FieldController]: a component that renders react-hook-form's
      [Controller] and hands normalised props to a caller-supplied renderer;
    - [flattenErrors]: the helper that turns an error structure into a string.

    JavaScript objects with identity (arrays, proxies) live in an explicit
    heap; strings are [string]s; exceptions are an error monad. *)

From Stdlib Require Import ZArith Lia.
From stdpp Require Import base option list strings gmap.

Open Scope string_scope.
Open Scope list_scope.

(** ** JavaScript string primitives

    A JavaScript string is modelled by a [string].  The only code unit the
    program inspects is the ASCII character "$", so whichever encoding the
    characters of a key are given in (UTF-16 code units or UTF-8 bytes), testing
    and removing a final "$" acts on one final element of the sequence. *)
Module Str.

(** [Array.prototype.join] on an array of strings. *)
Definition join (xs : list string) (sep : string) : string :=
  String.concat sep xs.

(** [String.prototype.endsWith(search)] with the default end position:
    the last [length search] code units of [s] are compared with [search];
    a [search] longer than [s] never matches. *)
Definition endsWith (s search : string) : bool :=
  let len := String.length s in
  let searchLength := String.length search in
  if decide (searchLength ≤ len)%nat
  then String.eqb (String.substring (len - searchLength) searchLength s) search
  else false.

(** The relative-index clamping of [String.prototype.slice]. *)
Definition clamp (rel len : Z) : Z :=
  if decide (rel < 0)%Z then Z.max (len + rel) 0 else Z.min rel len.

(** [String.prototype.slice(start, end)]. *)
Definition slice (s : string) (start end_ : Z) : string :=
  let len := Z.of_nat (String.length s) in
  let from := clamp start len in
  let to := clamp end_ len in
  String.substring (Z.to_nat from) (Z.to_nat (Z.max (to - from) 0)) s.

End Str.

(** ** Exceptions

    A JavaScript computation either returns a value or throws.  The only
    exception the modelled code can raise by itself is the [TypeError] of the
    [in] operator applied to a primitive. *)
Inductive Exception := TypeError.

Inductive Completion (A : Type) :=
| Return (a : A)
| Throw (e : Exception).
Arguments Return {A} a.
Arguments Throw {A} e.

#[global] Instance Completion_ret : MRet Completion := λ A a, Return a.
#[global] Instance Completion_bind : MBind Completion := λ A B f c,
  match c with
  | Return a => f a
  | Throw e => Throw e
  end.
#[global] Instance Completion_fmap : FMap Completion := λ A B f c,
  match c with
  | Return a => Return (f a)
  | Throw e => Throw e
  end.

(** ** The values an error structure is made of

    react-hook-form stores in [FieldErrors] / [FieldError] strings ([type],
    [message]), booleans, nested objects and arrays, and leaves absent members
    [undefined]; numbers, symbols and functions do not occur there and are not
    modelled.  An object is given by its own string-keyed properties, in the
    order in which [Object.values] enumerates them; an array is the object
    whose keys are its indices.  Nothing is inherited: the prototypes of plain
    objects and arrays have no [message] property.  Every object is a finite
    tree: a reference cycle (on which the recursion of [flattenErrors] would
    not end) is not representable. *)
Record Property (V : Type) := mkProperty {
  key : string;
  enumerable : bool;
  value : V;
}.
Arguments mkProperty {V} key enumerable value.
Arguments key {V} p.
Arguments enumerable {V} p.
Arguments value {V} p.

#[local] Set Warnings "-register-all".

Inductive JSValue :=
| JSUndefined
| JSNull
| JSBoolean (b : bool)
| JSString (s : string)
| JSObject (props : list (Property JSValue)).

(** The line feed character, JavaScript's ["\n"]. *)
Definition newline : string := String (Ascii.ascii_of_nat 10) "".

(** An object literal [{ k1: v1, ..., kn: vn }]: every member is enumerable. *)
Definition literal (members : list (string * JSValue)) : JSValue :=
  JSObject ((λ m, mkProperty m.1 true m.2) <$> members).

(** [ToBoolean], as used by [!errors]. *)
Definition ToBoolean (v : JSValue) : bool :=
  match v with
  | JSUndefined | JSNull => false
  | JSBoolean b => b
  | JSString s => negb (String.eqb s "")
  | JSObject _ => true
  end.

(** [k in o] for an object [o] (enumerable or not, the property counts). *)
Definition HasProperty (k : string) (props : list (Property JSValue)) : bool :=
  existsb (λ p, String.eqb (key p) k) props.

(** [o.k]: the value of the property, [undefined] when there is none. *)
Definition Get (props : list (Property JSValue)) (k : string) : JSValue :=
  match find (λ p, String.eqb (key p) k) props with
  | Some p => value p
  | None => JSUndefined
  end.

(** [Object.values(o)]: the values of the enumerable own properties. *)
Definition Object_values (props : list (Property JSValue)) : list JSValue :=
  value <$> filter (λ p, enumerable p = true) props.

Section flattenErrors.

(** What [ToString] makes of an object depends on its [toString] method
    ("[object Object]" for a plain object, the comma-joined elements for an
    array), which the property list does not determine: it is a parameter. *)
Variable ObjectToString : list (Property JSValue) → string.

Definition ToString (v : JSValue) : string :=
  match v with
  | JSUndefined => "undefined"
  | JSNull => "null"
  | JSBoolean true => "true"
  | JSBoolean false => "false"
  | JSString s => s
  | JSObject props => ObjectToString props
  end.

(** The string [Array.prototype.join] puts in for one element:
    [undefined] and [null] give the empty string. *)
Definition join_element (v : JSValue) : string :=
  match v with
  | JSUndefined | JSNull => ""
  | _ => ToString v
  end.

(** [Array.prototype.join] on an array of arbitrary values. *)
Definition Array_join (xs : list JSValue) (sep : string) : string :=
  Str.join (join_element <$> xs) sep.

(** [flattenErrors] (index.tsx, lines 133-141).  The test
    ["message" in errors] throws a [TypeError] when [errors] is a primitive
    (the last branch).  The inner [fix] is
    [Object.values(errors).map(flattenErrors)], element by element, so that
    the recursion is structural; [flattenErrors_object] below states it with
    [Object_values] and [mapM]. *)
Fixpoint flattenErrors (errors : JSValue) : Completion JSValue :=
  if negb (ToBoolean errors) then Return JSUndefined
  else
    match errors with
    | JSObject props =>
        if HasProperty "message" props then Return (Get props "message")
        else
          results ←
            (fix map_flattenErrors (ps : list (Property JSValue)) :=
               match ps with
               | [] => Return []
               | p :: ps' =>
                   if enumerable p
                   then r ← flattenErrors (value p);
                        rs ← map_flattenErrors ps';
                        Return (r :: rs)
                   else map_flattenErrors ps'
               end) props;
          Return (JSString (Array_join results newline))
    | _ => Throw TypeError
    end.

End flattenErrors.

(** The error structures proper: a node is absent (falsy), or an object with
    a [message], or an object without one all of whose enumerable values are
    error structures again. *)
Inductive ErrorTree : JSValue → Prop :=
| ErrorTree_absent (e : JSValue) :
    ToBoolean e = false → ErrorTree e
| ErrorTree_leaf (props : list (Property JSValue)) :
    HasProperty "message" props = true → ErrorTree (JSObject props)
| ErrorTree_node (props : list (Property JSValue)) :
    HasProperty "message" props = false →
    Forall ErrorTree (Object_values props) →
    ErrorTree (JSObject props).

(** ** The host framework and the wrapped form library

    What React and react-hook-form provide is opaque to the adapter and is
    taken as an interface: a [World] that library callbacks act on, the
    [Outcome] they return, the field [Value]s, the form handle [Form] with its
    [control] member, and how an object prints ([ObjectToString], see
    [ToString]). *)
Class Host := {
  World : Type;
  Outcome : Type;
  Value : Type;
  Form : Type;
  Control : Type;
  control : Form → Control;
  ObjectToString : list (Property JSValue) → string;
}.

(** The synthetic event [{ type, target: { value, name } }]. *)
Record EventTarget (V : Type) := mkEventTarget {
  target_value : V;
  target_name : string;
}.
Arguments mkEventTarget {V} target_value target_name.
Arguments target_value {V} _.
Arguments target_name {V} _.

Record ChangeEvent (V : Type) := mkChangeEvent {
  event_type : string;
  event_target : EventTarget V;
}.
Arguments mkChangeEvent {V} event_type event_target.
Arguments event_type {V} _.
Arguments event_target {V} _.

Section HostTypes.

Context `{Host}.

(** A library callback: it acts on the world and returns something. *)
Definition Effect : Type := World → Outcome * World.

(** The argument react-hook-form's [Controller] gives to its [render] prop:
    [field] and [fieldState], with the members the adapter destructures and
    some of those it leaves alone. *)
Record ControllerField := mkControllerField {
  field_value : Value;
  field_onChange : ChangeEvent Value → Effect;
  field_onBlur : Effect;
  field_name : string;
}.
Record ControllerFieldState := mkControllerFieldState {
  invalid : bool;
  isTouched : bool;
  isDirty : bool;
  error : JSValue;
}.
Record ControllerRenderProps := mkControllerRenderProps {
  field : ControllerField;
  fieldState : ControllerFieldState;
}.

(** The object handed to the caller's renderer: an object literal, kept as
    the list of its members in the order they are written. *)
Inductive PropValue :=
| PValue (v : Value)
| PData (v : JSValue)
| PBlur (f : Effect)
| PChange (f : Value → Effect).

Definition FieldProps : Type := list (string * PropValue).

Definition keys (o : FieldProps) : list string := o.*1.

Definition member (o : FieldProps) (k : string) : option PropValue :=
  snd <$> find (λ m, String.eqb m.1 k) o.

(** Props of the two components, and the elements [createElement] makes. *)
Record FieldControllerProps (E : Type) := mkFieldControllerProps {
  form : Form;
  name : string;
  render : FieldProps → E;
  required : option bool;
}.

Record ControllerProps (E : Type) := mkControllerProps {
  controller_control : Control;
  controller_name : string;
  controller_rules : JSValue;
  controller_render : ControllerRenderProps → Completion E;
}.

Inductive ReactElement (E : Type) :=
| FieldControllerElement (props : FieldControllerProps E)
| ControllerElement (props : ControllerProps E).

End HostTypes.

Arguments mkFieldControllerProps {_ E} form name render required.
Arguments form {_ E} _.
Arguments name {_ E} _.
Arguments render {_ E} _.
Arguments required {_ E} _.
Arguments mkControllerProps {_ E} _ _ _ _.
Arguments controller_control {_ E} _.
Arguments controller_name {_ E} _.
Arguments controller_rules {_ E} _.
Arguments controller_render {_ E} _.
Arguments FieldControllerElement {_ E} props.
Arguments ControllerElement {_ E} props.

(** A [boolean | undefined] as a value. *)
Definition optional_boolean (b : option bool) : JSValue :=
  match b with
  | Some b => JSBoolean b
  | None => JSUndefined
  end.

(** The arrow function given to [Controller] as its [render] prop
    (index.tsx, lines 74-87).  It builds the object literal member by member;
    evaluating the [error] member may throw, in which case the caller's
    [render] is not called. *)
Definition FieldController_render `{Host} {E : Type}
    (props : FieldControllerProps E) (arg : ControllerRenderProps)
  : Completion E :=
  let name := name props in
  let render := render props in
  let required := required props in
  let value := field_value (field arg) in
  let onChange := field_onChange (field arg) in
  let onBlur := field_onBlur (field arg) in
  let invalid := invalid (fieldState arg) in
  let error := error (fieldState arg) in
  error_string ←
    (if invalid then flattenErrors ObjectToString error
     else Return JSUndefined);
  Return (render [
    ("value", PValue value);
    ("name", PData (JSString name));
    ("onBlur", PBlur onBlur);
    ("onChange", PChange (λ newValue,
       onChange {| event_type := "change";
                   event_target := {| target_value := newValue;
                                      target_name := name |} |}));
    ("error", PData error_string);
    ("required", PData (optional_boolean required))
  ]).

(** [FieldController] (index.tsx, lines 55-90). *)
Definition FieldController `{Host} {E : Type} (props : FieldControllerProps E)
  : ReactElement E :=
  ControllerElement {|
    controller_control := control (form props);
    controller_name := name props;
    controller_rules :=
      literal [("required", optional_boolean (required props))];
    controller_render := FieldController_render props;
  |}.

(** What the caller's renderer is called with.  The renderer is a parameter
    of the component, so "the renderer is called on [o]" is: whatever the
    renderer, the function given to [Controller] returns its result on [o].
    (Taking the identity for the renderer shows that [o] is unique.) *)
Definition render_called_with `{Host} (form : Form) (name : string)
    (required : option bool) (arg : ControllerRenderProps) (o : FieldProps)
  : Prop :=
  ∀ (E : Type) (render : FieldProps → E),
    FieldController_render
      {| form := form; name := name; render := render; required := required |}
      arg
    = Return (render o).

(** The renderer is not called: the function given to [Controller] throws. *)
Definition render_not_called `{Host} (form : Form) (name : string)
    (required : option bool) (arg : ControllerRenderProps) : Prop :=
  ∀ (E : Type) (render : FieldProps → E),
    FieldController_render
      {| form := form; name := name; render := render; required := required |}
      arg
    = Throw TypeError.

(** The statement that the renderer's object has the five members
    [value], [onChange], [onBlur], [error], [required] and no other. *)
Definition renderer_gets_only_the_five `{Host} (form : Form) (name : string)
    (required : option bool) (arg : ControllerRenderProps) : Prop :=
  ∀ o, render_called_with form name required arg o →
       ∀ k, k ∈ keys o ↔ k ∈ ["value"; "onChange"; "onBlur"; "error"; "required"].

(** "No validation rule": a [rules] object none of whose members is set
    (react-hook-form ignores a rule whose value is falsy). *)
Definition contributes_no_rules (rules : JSValue) : Prop :=
  match rules with
  | JSObject props => Forall (λ p, ToBoolean (value p) = false) props
  | _ => ToBoolean rules = false
  end.

(** The statement that the adapter registers the field without any rule. *)
Definition adapter_adds_no_rules `{Host} {E : Type}
    (props : FieldControllerProps E) : Prop :=
  ∀ c, FieldController props = ControllerElement c →
       contributes_no_rules (controller_rules c).

(** ** Objects with identity: the heap

    Arrays and proxies are objects: the handler of a proxy closes over a
    reference to its path array, so the array is read when a trap runs, not
    when the proxy is made.  A heap maps references to objects; a computation
    threads the heap and is stuck ([None]) on a dangling or ill-typed
    reference, which the theorems show never happens.

    The heap holds the two kinds of objects a trap reads: path arrays and
    proxies.  The handler object and the two closures made with a proxy are
    represented by what they close over, the [form] and the [path] of the
    [ProxyObject]; the argument list the engine builds for a call, and the
    strings and the element the [apply] trap makes, are values, not heap
    objects.  Statements that count objects count path arrays and proxies. *)
Definition loc := nat.

Inductive HeapObject `{Host} :=
| ArrayObject (elements : list string) (frozen : bool)
| ProxyObject (form : Form) (path : loc).

Abbreviation Heap := (gmap loc HeapObject).

Definition M `{Host} (A : Type) : Type := Heap → option (A * Heap).

#[global] Instance M_ret `{Host} : MRet M := λ A a h, Some (a, h).
#[global] Instance M_bind `{Host} : MBind M := λ A B f m h,
  match m h with
  | Some (a, h') => f a h'
  | None => None
  end.

(** A new object gets a reference no object has yet. *)
Definition alloc `{Host} (o : HeapObject) : M loc :=
  λ h, let l := fresh (dom h) in Some (l, <[l := o]> h).

Definition load_array `{Host} (l : loc) : M (list string) :=
  λ h, match h !! l with
       | Some (ArrayObject elements _) => Some (elements, h)
       | _ => None
       end.

Definition load_proxy `{Host} (l : loc) : M (Form * loc) :=
  λ h, match h !! l with
       | Some (ProxyObject form path) => Some ((form, path), h)
       | _ => None
       end.

(** The module-level constants.  [emptyPath] is the frozen empty array made
    when the module is loaded; [noop], the target of every proxy, only makes
    the proxy callable and no trap looks at it, so it is left out. *)
Definition emptyPath : loc := 0.

Definition initialHeap `{Host} : Heap := {[ emptyPath := ArrayObject [] true ]}.

Definition optionalIndicator : string := "$".

(** A property key is a string or a symbol; [String(step)] prints it. *)
Inductive PropertyKey :=
| StringKey (s : string)
| SymbolKey (description : option string).

Definition String_of (step : PropertyKey) : string :=
  match step with
  | StringKey s => s
  | SymbolKey description => "Symbol(" +:+ default "" description +:+ ")"
  end.

Section Proxy.

Context `{Host}.

(** [createControllerProxyImpl] (index.tsx, lines 24-47): a new proxy whose
    handler has [form] and [path] in its closure. *)
Definition createControllerProxyImpl (form : Form) (path : loc) : M loc :=
  alloc (ProxyObject form path).

(** [createControllerProxy] (lines 18-22). *)
Definition createControllerProxy (form : Form) : M loc :=
  createControllerProxyImpl form emptyPath.

(** The [get] trap (lines 29-31): [[...path, String(step)]] is a new array. *)
Definition handler_get (proxy : loc) (step : PropertyKey) : M loc :=
  '(form, path) ← load_proxy proxy;
  elements ← load_array path;
  path' ← alloc (ArrayObject (elements ++ [String_of step]) false);
  createControllerProxyImpl form path'.

(** The [apply] trap (lines 32-45). *)
Definition handler_apply {E : Type} (proxy : loc) (render : FieldProps → E)
  : M (ReactElement E) :=
  '(form, path) ← load_proxy proxy;
  elements ← load_array path;
  let pathAsString := Str.join elements "." in
  let isOptional := Str.endsWith pathAsString optionalIndicator in
  let name :=
    if isOptional then Str.slice pathAsString 0 (-1) else pathAsString in
  mret (FieldControllerElement {|
    form := form;
    name := name;
    render := render;
    required := Some (negb isOptional);
  |}).

(** A chain of property accesses [proxy.k1.k2. ... .kn]. *)
Fixpoint access (proxy : loc) (steps : list PropertyKey) : M loc :=
  match steps with
  | [] => mret proxy
  | step :: steps' => proxy' ← handler_get proxy step; access proxy' steps'
  end.

(** In heap [h] the object at [proxy] is a proxy for [form] whose path array
    currently holds [elements]. *)
Definition proxy_at (h : Heap) (proxy : loc) (form : Form)
    (elements : list string) : Prop :=
  ∃ path frozen,
    h !! proxy = Some (ProxyObject form path) ∧
    h !! path = Some (ArrayObject elements frozen).

(** The whole expression [createControllerProxy(form).k1. ... .kn(render)]. *)
Definition call_path {E : Type} (form : Form) (steps : list PropertyKey)
    (render : FieldProps → E) : M (ReactElement E) :=
  root ← createControllerProxy form;
  proxy ← access root steps;
  handler_apply proxy render.

(** The [apply] trap with the handling of the optional indicator erased
    (lines 34-35 gone, [isOptional] never true): the joined path is the name
    and the field is required.  It is the variant the run-time behaviour is
    compared with; the program does not contain it. *)
Definition handler_apply_erased {E : Type} (proxy : loc)
    (render : FieldProps → E) : M (ReactElement E) :=
  '(form, path) ← load_proxy proxy;
  elements ← load_array path;
  let pathAsString := Str.join elements "." in
  mret (FieldControllerElement {|
    form := form;
    name := pathAsString;
    render := render;
    required := Some true;
  |}).

(** The statement that what the [apply] trap returns does not depend on the
    optional indicator. *)
Definition apply_is_indicator_free {E : Type} (h : Heap) (proxy : loc)
    (render : FieldProps → E) : Prop :=
  handler_apply proxy render h = handler_apply_erased proxy render h.

End Proxy.

(** ** A host to run examples in

    The world is the log of the events the library's [onChange] has been
    called with, so that calls can be counted.  Its [ObjectToString] is that
    of a plain object; an array would print comma-joined, and no example
    has an array or an object where a message is expected. *)
Definition spy_host : Host := {|
  World := list (ChangeEvent string);
  Outcome := unit;
  Value := string;
  Form := string;
  Control := string;
  control := λ form, form +:+ ".control";
  ObjectToString := λ _, "[object Object]";
|}.

Definition spy_onChange (event : ChangeEvent string)
  : @Effect spy_host :=
  λ log : list (ChangeEvent string), (tt, (log ++ [event])%list).

Definition spy_onBlur : @Effect spy_host :=
  λ log : list (ChangeEvent string), (tt, log).

Definition spy_arg (invalid : bool) (error : JSValue)
  : @ControllerRenderProps spy_host :=
  @mkControllerRenderProps spy_host
    (@mkControllerField spy_host "v" spy_onChange spy_onBlur "n")
    (mkControllerFieldState invalid false false error).

(** The object the renderer is expected to get from [spy_arg]. *)
Definition spy_props (nm : string) (e : JSValue) (req : option bool)
  : @FieldProps spy_host :=
  [ ("value", @PValue spy_host "v");
    ("name", PData (JSString nm));
    ("onBlur", PBlur spy_onBlur);
    ("onChange", @PChange spy_host (λ newValue,
       spy_onChange {| event_type := "change";
                       event_target := {| target_value := newValue;
                                          target_name := nm |} |}));
    ("error", PData e);
    ("required", PData (optional_boolean req)) ].

(** The heap after [createControllerProxy("form")] and, from the proxy it
    returns (at 1), the access of the key "a$" (giving the proxy at 3). *)
Definition spy_heap : @gmap loc _ _ (@HeapObject spy_host) :=
  <[3 := @ProxyObject spy_host "form" 2]>
    (<[2 := @ArrayObject spy_host ["a$"] false]>
       (<[1 := @ProxyObject spy_host "form" 0]> initialHeap)).

(** An error structure with a leaf, a leaf without text and a nested leaf. *)
Definition sample_errors : JSValue :=
  literal [
    ("email", literal [("type", JSString "pattern");
                       ("message", JSString "Invalid email")]);
    ("age", literal [("type", JSString "min"); ("message", JSUndefined)]);
    ("address", literal [
       ("street", literal [("type", JSString "required");
                           ("message", JSString "Street is required")])])
  ].

(** The properties of a value that is an object. *)
Definition properties_of (v : JSValue) : list (Property JSValue) :=
  match v with
  | JSObject props => props
  | _ => []
  end.

(** ** Further notions used by the properties below *)

(** The name computation of the [apply] trap (index.tsx, lines 34-35) on a
    string of its own: one final "$" is sliced off. *)
Definition strip_indicator (s : string) : string :=
  if Str.endsWith s optionalIndicator then Str.slice s 0 (-1) else s.

(** What a client can do with the module: make a root proxy, read a property
    of a proxy, call a proxy.  A client program is a sequence of these, on
    whatever references it holds. *)
Inductive Operation `{Host} :=
| OpCreate (form : Form)
| OpGet (proxy : loc) (step : PropertyKey)
| OpApply (proxy : loc).

Definition run_operation `{Host} (op : Operation) : M unit :=
  match op with
  | OpCreate form => _ ← createControllerProxy form; mret tt
  | OpGet proxy step => _ ← handler_get proxy step; mret tt
  | OpApply proxy => _ ← handler_apply proxy (λ o : FieldProps, o); mret tt
  end.

Fixpoint run_operations `{Host} (ops : list Operation) : M unit :=
  match ops with
  | [] => mret tt
  | op :: ops' => _ ← run_operation op; run_operations ops'
  end.

(** The messages of an error structure, depth first, in the order in which
    [Object.values] enumerates the members. *)
Fixpoint leaf_messages (e : JSValue) : list string :=
  match e with
  | JSObject props =>
      if HasProperty "message" props
      then match Get props "message" with
           | JSString m => [m]
           | _ => []
           end
      else (fix members (ps : list (Property JSValue)) : list string :=
              match ps with
              | [] => []
              | p :: ps' =>
                  if enumerable p
                  then leaf_messages (value p) ++ members ps'
                  else members ps'
              end) props
  | _ => []
  end.

(** An error structure all of whose leaves carry a text and none of whose
    branches is empty. *)
Inductive MessageTree : JSValue → Prop :=
| MessageTree_leaf (props : list (Property JSValue)) (m : string) :
    HasProperty "message" props = true →
    Get props "message" = JSString m →
    MessageTree (JSObject props)
| MessageTree_node (props : list (Property JSValue)) :
    HasProperty "message" props = false →
    Object_values props ≠ [] →
    Forall MessageTree (Object_values props) →
    MessageTree (JSObject props).

(** A heap as the module leaves it: [emptyPath] is the frozen empty array and
    the path of every proxy is an array. *)
Definition heap_wf `{Host} (h : Heap) : Prop :=
  h !! emptyPath = Some (ArrayObject [] true) ∧
  ∀ l form path,
    h !! l = Some (ProxyObject form path) →
    ∃ elements frozen, h !! path = Some (ArrayObject elements frozen).

(** [spy_heap] after a client went on: a root proxy for another form (at 4),
    the access of "b" on the proxy at 3 (array at 5, proxy at 6), and a call
    of the proxy at 1. *)
Definition spy_program : list (@Operation spy_host) :=
  [@OpCreate spy_host "other"; OpGet 3 (StringKey "b"); OpApply 1].

Definition spy_heap_later : @gmap loc _ _ (@HeapObject spy_host) :=
  <[6 := @ProxyObject spy_host "form" 5]>
    (<[5 := @ArrayObject spy_host ["a$"; "b"] false]>
       (<[4 := @ProxyObject spy_host "other" 0]> spy_heap)).

(** An error structure in which every leaf has a text. *)
Definition sample_messages : JSValue :=
  literal [
    ("email", literal [("type", JSString "pattern");
                       ("message", JSString "Invalid email")]);
    ("address", literal [
       ("street", literal [("type", JSString "required");
                           ("message", JSString "Street is required")]);
       ("city", literal [("message", JSString "City is required")])])
  ].




(** * Properties *)

(** ** Strings *)
Section string_facts.

Lemma string_length_app (s t : string) :
  String.length (s +:+ t) = String.length s + String.length t.
Proof. induction s as [|c s IH]; simpl; [done | by rewrite IH]. Qed.

Lemma substring_zero_all (s : string) :
  String.substring 0 (String.length s) s = s.
Proof. induction s as [|c s IH]; simpl; [done | by rewrite IH]. Qed.

Lemma substring_prefix (s t : string) :
  String.substring 0 (String.length s) (s +:+ t) = s.
Proof.
  induction s as [|c s IH]; simpl.
  - by destruct t.
  - by rewrite IH.
Qed.

Lemma substring_suffix (s t : string) :
  String.substring (String.length s) (String.length t) (s +:+ t) = t.
Proof.
  induction s as [|c s IH]; simpl; [apply substring_zero_all | done].
Qed.

(** Cutting a string at any position inside it loses nothing. *)
Lemma substring_split (s : string) (k : nat) :
  (k ≤ String.length s)%nat →
  s = String.substring 0 k s +:+ String.substring k (String.length s - k) s.
Proof.
  revert k. induction s as [|c s IH]; intros [|k] Hk; simpl in *; try lia.
  - done.
  - by rewrite substring_zero_all.
  - change (String c s = String c (String.substring 0 k s +:+
             String.substring k (String.length s - k) s)).
    f_equal. apply IH. lia.
Qed.

Lemma endsWith_app (s t : string) : Str.endsWith (s +:+ t) t = true.
Proof.
  unfold Str.endsWith. rewrite string_length_app.
  destruct (decide _) as [_|Hn]; [|lia].
  replace (String.length s + String.length t - String.length t)
    with (String.length s) by lia.
  rewrite substring_suffix. apply String.eqb_refl.
Qed.

Lemma endsWith_inv (s t : string) :
  Str.endsWith s t = true →
  s = String.substring 0 (String.length s - String.length t) s +:+ t.
Proof.
  unfold Str.endsWith.
  destruct (decide _) as [Hle|]; [|done].
  intros Heq%String.eqb_eq.
  pose proof (substring_split s (String.length s - String.length t)) as Hs.
  replace (String.length s - (String.length s - String.length t))
    with (String.length t) in Hs by lia.
  rewrite Heq in Hs. apply Hs. lia.
Qed.

(** [endsWith] decides "is of the form [p ++ t]". *)
Lemma endsWith_spec (s t : string) :
  Str.endsWith s t = true ↔ ∃ p, s = p +:+ t.
Proof.
  split.
  - intros H. eexists. by apply endsWith_inv.
  - intros [p ->]. apply endsWith_app.
Qed.

(** [slice(0, -1)] drops exactly the last code unit. *)
Lemma slice_drop_last (p : string) (c : Ascii.ascii) :
  Str.slice (p +:+ String c "") 0 (-1) = p.
Proof.
  unfold Str.slice, Str.clamp.
  rewrite string_length_app. simpl String.length.
  destruct (decide (0 < 0)%Z); [lia|].
  destruct (decide (-1 < 0)%Z); [|lia].
  replace (Z.to_nat (Z.min 0 _)) with 0 by lia.
  replace (Z.to_nat _) with (String.length p) by lia.
  apply substring_prefix.
Qed.

Lemma slice_empty : Str.slice "" 0 (-1) = "".
Proof. reflexivity. Qed.

End string_facts.

(** ** The recursion of [flattenErrors] *)
Section flattenErrors_facts.

Variable ObjectToString : list (Property JSValue) → string.

(** Induction on a value, with the hypothesis available for every
    property value of an object. *)
Lemma JSValue_tree_ind (P : JSValue → Prop) :
  P JSUndefined → P JSNull → (∀ b, P (JSBoolean b)) → (∀ s, P (JSString s)) →
  (∀ props, Forall (λ p, P (value p)) props → P (JSObject props)) →
  ∀ v, P v.
Proof.
  intros Hu Hn Hb Hs Ho. fix IH 1.
  intros [ | | b | s | props]; [exact Hu | exact Hn | apply Hb | apply Hs |].
  apply Ho. induction props as [|p props IHprops]; constructor.
  - apply IH.
  - exact IHprops.
Qed.

(** The inner loop of [flattenErrors] is [map(flattenErrors)] over
    [Object.values]. *)
Lemma flattenErrors_object (props : list (Property JSValue)) :
  flattenErrors ObjectToString (JSObject props) =
    if HasProperty "message" props then Return (Get props "message")
    else results ← mapM (flattenErrors ObjectToString) (Object_values props);
         Return (JSString (Array_join ObjectToString results newline)).
Proof.
  cbn [flattenErrors ToBoolean negb].
  destruct (HasProperty "message" props); [done|].
  f_equal. unfold Object_values.
  induction props as [|p props IH]; [done|].
  rewrite filter_cons. destruct (enumerable p) eqn:Hp.
  - rewrite decide_True by done. cbn [fmap list_fmap mapM].
    destruct (flattenErrors ObjectToString (value p)); [|done]. cbn.
    rewrite IH. done.
  - rewrite decide_False by done. apply IH.
Qed.

Lemma mapM_Completion_length {A B : Type} (f : A → Completion B)
    (xs : list A) (ys : list B) :
  mapM f xs = Return ys → length ys = length xs.
Proof.
  revert ys. induction xs as [|x xs IH]; intros ys Hm; cbn in Hm.
  - by injection Hm as <-.
  - destruct (f x) as [y|]; [|done]. cbn in Hm.
    destruct (mapM f xs) as [ys'|]; [|done]. cbn in Hm.
    injection Hm as <-. cbn. f_equal. by apply IH.
Qed.

Lemma mapM_Completion_app {A B : Type} (f : A → Completion B)
    (xs1 xs2 : list A) (ys1 ys2 : list B) :
  mapM f xs1 = Return ys1 → mapM f xs2 = Return ys2 →
  mapM f (xs1 ++ xs2) = Return (ys1 ++ ys2).
Proof.
  revert ys1. induction xs1 as [|x xs1 IH]; intros ys1 H1 H2; cbn in H1.
  - by injection H1 as <-.
  - destruct (f x) as [y|] eqn:Hy; [|done]. cbn in H1.
    destruct (mapM f xs1) as [ys'|]; [|done]. cbn in H1.
    injection H1 as <-. cbn. rewrite Hy. cbn.
    by rewrite (IH ys' eq_refl H2).
Qed.

Lemma mapM_Completion_Forall {A B : Type} (f : A → Completion B)
    (xs : list A) :
  Forall (λ x, ∃ y, f x = Return y) xs → ∃ ys, mapM f xs = Return ys.
Proof.
  induction 1 as [|x xs [y Hy] _ [ys Hys]]; [by exists []|].
  exists (y :: ys). cbn. rewrite Hy. cbn. by rewrite Hys.
Qed.

(** On an error structure the recursion never meets a primitive it cannot
    look into: [flattenErrors] returns. *)
Lemma flattenErrors_returns (e : JSValue) :
  ErrorTree e → ∃ r, flattenErrors ObjectToString e = Return r.
Proof.
  induction e as [ | | b | s | props IH] using JSValue_tree_ind;
    intros Htree.
  1-4: inversion Htree as [e' Hfalsy| |]; subst;
       (exists JSUndefined; cbn in *; by rewrite ?Hfalsy).
  rewrite flattenErrors_object.
  inversion Htree as [e' Hfalsy|props' Hmsg|props' Hmsg Hvals]; subst.
  - done.
  - rewrite Hmsg. eauto.
  - rewrite Hmsg.
    destruct (mapM_Completion_Forall (flattenErrors ObjectToString)
                (Object_values props)) as [rs Hrs].
    + unfold Object_values in *. rewrite Forall_fmap in Hvals |- *.
      rewrite Forall_forall in IH, Hvals |- *.
      intros p Hp. apply list_elem_of_filter in Hp as Hp'.
      destruct Hp' as [_ Hin]. cbn. apply IH; [done|]. by apply Hvals.
    + rewrite Hrs. cbn. eauto.
Qed.

(** The three cases of [flattenErrors], on the declared parameter type
    (absent, or an object): an absent input gives [undefined]; an object with
    a [message] property gives that message; any other object gives the
    flattened values of its enumerable properties joined with newlines,
    provided flattening them returns.  On an error structure it does. *)
Lemma flattenErrors_cases (e : JSValue) :
  (e = JSUndefined → flattenErrors ObjectToString e = Return JSUndefined) ∧
  (∀ props, e = JSObject props → HasProperty "message" props = true →
     flattenErrors ObjectToString e = Return (Get props "message")) ∧
  (∀ props, e = JSObject props → HasProperty "message" props = false →
     flattenErrors ObjectToString e =
       (results ← mapM (flattenErrors ObjectToString) (Object_values props);
        Return (JSString (Str.join (join_element ObjectToString <$> results)
                            newline)))) ∧
  (ErrorTree e → ∃ r, flattenErrors ObjectToString e = Return r).
Proof.
  split_and!.
  - by intros ->.
  - intros props -> Hmsg. by rewrite flattenErrors_object, Hmsg.
  - intros props -> Hmsg. by rewrite flattenErrors_object, Hmsg.
  - apply flattenErrors_returns.
Qed.

Lemma mapM_Completion_Throw {A B : Type} (f : A → Completion B)
    (xs : list A) (x : A) :
  x ∈ xs → f x = Throw TypeError → mapM f xs = Throw TypeError.
Proof.
  intros Hin Hx. induction Hin as [x xs|x y xs Hin IH]; cbn.
  - by rewrite Hx.
  - destruct (f y) as [b|[]]; [|done]. cbn. by rewrite (IH Hx).
Qed.

(** A primitive that is not falsy cannot be flattened: the [in] test throws. *)
Lemma flattenErrors_truthy_primitive (v : JSValue) :
  ToBoolean v = true → (∀ props, v ≠ JSObject props) →
  flattenErrors ObjectToString v = Throw TypeError.
Proof.
  intros Htruthy Hprim. destruct v as [ | | b | s | props]; cbn in *;
    try done.
  - by rewrite Htruthy.
  - by rewrite Htruthy.
  - by destruct (Hprim props).
Qed.

(** So a node without [message] that has such a primitive among its
    enumerable values cannot be flattened either. *)
Lemma flattenErrors_throws_on_primitive_member
    (props : list (Property JSValue)) (v : JSValue) :
  HasProperty "message" props = false →
  v ∈ Object_values props →
  ToBoolean v = true → (∀ props', v ≠ JSObject props') →
  flattenErrors ObjectToString (JSObject props) = Throw TypeError.
Proof.
  intros Hmsg Hin Htruthy Hprim.
  rewrite flattenErrors_object, Hmsg.
  rewrite (mapM_Completion_Throw _ _ v Hin); [done|].
  by apply flattenErrors_truthy_primitive.
Qed.

(** C3.  [flattenErrors] is to flatten every validation-error structure into
    one string (absent: [undefined]; with a [message]: the message; otherwise
    the flattened enumerable values joined with newlines).  On the error
    [{ type: "custom" }], which has no [message], it does not return: the
    value "custom" is flattened in turn and the [in] test on a string
    throws. *)
Theorem flattenErrors_throws_without_message :
  flattenErrors ObjectToString (literal [("type", JSString "custom")])
  = Throw TypeError.
Proof.
  apply (flattenErrors_throws_on_primitive_member
           (properties_of (literal [("type", JSString "custom")]))
           (JSString "custom")).
  - reflexivity.
  - cbn. apply list_elem_of_here.
  - reflexivity.
  - intros props'. discriminate.
Qed.

(** C10.  An object with a [message] key is a leaf: its message is returned,
    [undefined] included.  In a node without one, every enumerable property
    gets a segment of the newline join, and a child whose result is
    [undefined] gets the empty segment, at its own place between those of its
    siblings. *)
Theorem flattenErrors_leaf_and_empty_segments :
  (∀ props, HasProperty "message" props = true →
     flattenErrors ObjectToString (JSObject props) = Return (Get props "message")) ∧
  (∀ props, HasProperty "message" props = true →
     Get props "message" = JSUndefined →
     flattenErrors ObjectToString (JSObject props) = Return JSUndefined) ∧
  (∀ props results, HasProperty "message" props = false →
     mapM (flattenErrors ObjectToString) (Object_values props) = Return results →
     flattenErrors ObjectToString (JSObject props) =
       Return (JSString (Str.join (join_element ObjectToString <$> results) newline)) ∧
     length (join_element ObjectToString <$> results) = length (Object_values props) ∧
     (∀ i, results !! i = Some JSUndefined →
           (join_element ObjectToString <$> results) !! i = Some "")) ∧
  (∀ before after k child rb ra,
     HasProperty "message" (before ++ mkProperty k true child :: after) = false →
     flattenErrors ObjectToString child = Return JSUndefined →
     mapM (flattenErrors ObjectToString) (Object_values before) = Return rb →
     mapM (flattenErrors ObjectToString) (Object_values after) = Return ra →
     flattenErrors ObjectToString (JSObject (before ++ mkProperty k true child :: after)) =
       Return (JSString (Str.join ((join_element ObjectToString <$> rb) ++
                                   "" :: (join_element ObjectToString <$> ra))
                           newline))).
Proof.
  split_and!.
  - intros props Hmsg. by rewrite flattenErrors_object, Hmsg.
  - intros props Hmsg Hget. by rewrite flattenErrors_object, Hmsg, Hget.
  - intros props results Hmsg Hres. split_and!.
    + by rewrite flattenErrors_object, Hmsg, Hres.
    + rewrite length_fmap. by eapply mapM_Completion_length.
    + intros i Hi. by rewrite list_lookup_fmap, Hi.
  - intros before after k child rb ra Hmsg Hchild Hb Ha.
    rewrite flattenErrors_object, Hmsg.
    assert (mapM (flattenErrors ObjectToString)
              (Object_values (before ++ mkProperty k true child :: after))
            = Return (rb ++ JSUndefined :: ra)) as ->.
    { unfold Object_values in *. rewrite filter_app, fmap_app.
      apply mapM_Completion_app; [done|].
      rewrite filter_cons, decide_True by done. cbn.
      rewrite Hchild. cbn. fold (mapM (flattenErrors ObjectToString)).
      by rewrite Ha. }
    cbn. unfold Array_join. by rewrite fmap_app.
Qed.

End flattenErrors_facts.

(** ** What the renderer receives *)
Section FieldController_facts.

Context `{Host}.

Lemma render_called_with_intro (frm : Form) (nm : string)
    (req : option bool) (arg : ControllerRenderProps) (e : JSValue) :
  (if invalid (fieldState arg)
   then flattenErrors ObjectToString (error (fieldState arg))
   else Return JSUndefined) = Return e →
  render_called_with frm nm req arg [
    ("value", PValue (field_value (field arg)));
    ("name", PData (JSString nm));
    ("onBlur", PBlur (field_onBlur (field arg)));
    ("onChange", PChange (λ newValue,
       field_onChange (field arg)
         {| event_type := "change";
            event_target := {| target_value := newValue;
                               target_name := nm |} |}));
    ("error", PData e);
    ("required", PData (optional_boolean req))
  ].
Proof.
  intros He E rnd. unfold FieldController_render. cbn [name render required].
  by rewrite He.
Qed.

Lemma render_called_with_inv (frm : Form) (nm : string)
    (req : option bool) (arg : ControllerRenderProps) (o : FieldProps) :
  render_called_with frm nm req arg o →
  ∃ e,
    (if invalid (fieldState arg)
     then flattenErrors ObjectToString (error (fieldState arg))
     else Return JSUndefined) = Return e ∧
    o = [
      ("value", PValue (field_value (field arg)));
      ("name", PData (JSString nm));
      ("onBlur", PBlur (field_onBlur (field arg)));
      ("onChange", PChange (λ newValue,
         field_onChange (field arg)
           {| event_type := "change";
              event_target := {| target_value := newValue;
                                 target_name := nm |} |}));
      ("error", PData e);
      ("required", PData (optional_boolean req))
    ].
Proof.
  intros Hcall. specialize (Hcall FieldProps (λ o, o)).
  unfold FieldController_render in Hcall.
  cbn [name render required] in Hcall.
  destruct (if invalid (fieldState arg) then _ else _) as [e|ex]; [|done].
  exists e. split; [done|]. cbn in Hcall. congruence.
Qed.

Lemma render_not_called_intro (frm : Form) (nm : string)
    (req : option bool) (arg : ControllerRenderProps) :
  invalid (fieldState arg) = true →
  flattenErrors ObjectToString (error (fieldState arg)) = Throw TypeError →
  render_not_called frm nm req arg.
Proof.
  intros Hi He E rnd. unfold FieldController_render. by rewrite Hi, He.
Qed.

(** Either the renderer is called, on exactly one object, or flattening the
    error of an invalid field threw. *)
Lemma render_called_or_not (frm : Form) (nm : string)
    (req : option bool) (arg : ControllerRenderProps) :
  (∃ o, render_called_with frm nm req arg o) ∨
  render_not_called frm nm req arg.
Proof.
  destruct (if invalid (fieldState arg)
            then flattenErrors ObjectToString (error (fieldState arg))
            else Return JSUndefined) as [e|[]] eqn:He.
  - left. eexists. by apply render_called_with_intro.
  - right. destruct (invalid (fieldState arg)) eqn:Hi; [|done].
    by apply render_not_called_intro.
Qed.

End FieldController_facts.

(** ** The heap discipline of the proxy *)
Section ProxyFacts.

Context `{Host}.

Lemma M_bind_Some {A B : Type} (m : M A) (f : A → M B) (h h' : Heap) a :
  m h = Some (a, h') → (m ≫= f) h = f a h'.
Proof. intros Hm. unfold mbind, M_bind. by rewrite Hm. Qed.

(** Run the first computation of a sequence whose outcome is known. *)
Ltac run_bind tac := erewrite M_bind_Some by tac; cbv beta iota.

Lemma load_proxy_Some (h : Heap) l form path :
  h !! l = Some (ProxyObject form path) →
  load_proxy l h = Some ((form, path), h).
Proof. intros Hl. unfold load_proxy. by rewrite Hl. Qed.

Lemma load_array_Some (h : Heap) l elements frozen :
  h !! l = Some (ArrayObject elements frozen) →
  load_array l h = Some (elements, h).
Proof. intros Hl. unfold load_array. by rewrite Hl. Qed.

Lemma alloc_fresh (o : HeapObject) (h : Heap) :
  ∃ l, alloc o h = Some (l, <[l := o]> h) ∧ h !! l = None.
Proof.
  exists (fresh (dom h)). split; [done|].
  apply not_elem_of_dom, is_fresh.
Qed.

Lemma proxy_at_mono (h h' : Heap) proxy form elements :
  h ⊆ h' → proxy_at h proxy form elements → proxy_at h' proxy form elements.
Proof.
  intros Hsub (path & frozen & Hp & Ha).
  exists path, frozen. split; eapply lookup_weaken; eauto.
Qed.

Lemma createControllerProxyImpl_ok (h : Heap) form path elements frozen :
  h !! path = Some (ArrayObject elements frozen) →
  ∃ proxy,
    createControllerProxyImpl form path h
      = Some (proxy, <[proxy := ProxyObject form path]> h) ∧
    h !! proxy = None ∧
    proxy_at (<[proxy := ProxyObject form path]> h) proxy form elements.
Proof.
  intros Ha. destruct (alloc_fresh (ProxyObject form path) h) as (l & Hl & Hf).
  exists l. split_and!; [done..|].
  exists path, frozen. split.
  - apply lookup_insert_eq.
  - rewrite lookup_insert_ne; [done | congruence].
Qed.

(** One property access: two new objects, nothing else touched. *)
Lemma handler_get_ok (h : Heap) proxy form elements step :
  proxy_at h proxy form elements →
  ∃ proxy' path',
    handler_get proxy step h
      = Some (proxy',
              <[proxy' := ProxyObject form path']>
                (<[path' := ArrayObject (elements ++ [String_of step]) false]> h)) ∧
    h !! path' = None ∧ h !! proxy' = None ∧ path' ≠ proxy'.
Proof.
  intros (path & frozen & Hp & Ha).
  set (arr := ArrayObject (elements ++ [String_of step]) false).
  destruct (alloc_fresh arr h) as (path' & Halloc & Hfresh).
  destruct (createControllerProxyImpl_ok (<[path' := arr]> h) form path'
              (elements ++ [String_of step]) false) as (proxy' & Hc & Hf' & _).
  { apply lookup_insert_eq. }
  exists proxy', path'.
  assert (path' ≠ proxy') as Hne.
  { intros ->. by rewrite lookup_insert_eq in Hf'. }
  split_and!; [|done| |done].
  - unfold handler_get.
    run_bind ltac:(by apply load_proxy_Some).
    run_bind ltac:(by eapply load_array_Some).
    run_bind ltac:(exact Halloc).
    exact Hc.
  - by rewrite lookup_insert_ne in Hf'.
Qed.

Lemma handler_get_proxy_at (h : Heap) proxy form elements step :
  proxy_at h proxy form elements →
  ∃ proxy' h',
    handler_get proxy step h = Some (proxy', h') ∧
    h ⊆ h' ∧ h !! proxy' = None ∧
    proxy_at h' proxy' form (elements ++ [String_of step]).
Proof.
  intros Hat.
  destruct (handler_get_ok h proxy form elements step Hat)
    as (proxy' & path' & Hget & Hfa & Hfp & Hne).
  eexists _, _. split_and!; [exact Hget| |done|].
  - etrans; [apply insert_subseteq, Hfa|].
    apply insert_subseteq. by rewrite lookup_insert_ne.
  - exists path', false. split.
    + apply lookup_insert_eq.
    + rewrite lookup_insert_ne by done. apply lookup_insert_eq.
Qed.

(** A chain of accesses ends at a proxy for the extended path, in a heap
    that extends the one it started from. *)
Lemma access_ok (steps : list PropertyKey) :
  ∀ (h : Heap) proxy form elements,
    proxy_at h proxy form elements →
    ∃ proxy' h',
      access proxy steps h = Some (proxy', h') ∧
      h ⊆ h' ∧
      proxy_at h' proxy' form (elements ++ (String_of <$> steps)).
Proof.
  induction steps as [|step steps IH]; intros h proxy form elements Hat.
  - exists proxy, h. rewrite app_nil_r. done.
  - destruct (handler_get_proxy_at h proxy form elements step Hat)
      as (p1 & h1 & Hget & Hsub1 & _ & Hat1).
    destruct (IH h1 p1 form _ Hat1) as (p2 & h2 & Hacc & Hsub2 & Hat2).
    exists p2, h2. split_and!.
    + cbn [access]. run_bind ltac:(exact Hget). exact Hacc.
    + by etrans.
    + by rewrite <- app_assoc in Hat2.
Qed.

(** The [apply] trap reads the heap and leaves it as it is. *)
Lemma handler_apply_ok {E : Type} (h : Heap) proxy form elements
    (render : FieldProps → E) :
  proxy_at h proxy form elements →
  handler_apply proxy render h =
    Some (FieldControllerElement {|
            form := form;
            name := if Str.endsWith (Str.join elements ".") optionalIndicator
                    then Str.slice (Str.join elements ".") 0 (-1)
                    else Str.join elements ".";
            render := render;
            required :=
              Some (negb (Str.endsWith (Str.join elements ".") optionalIndicator));
          |}, h).
Proof.
  intros (path & frozen & Hp & Ha).
  unfold handler_apply.
  run_bind ltac:(by apply load_proxy_Some).
  run_bind ltac:(by eapply load_array_Some).
  done.
Qed.

Lemma createControllerProxy_ok (h : Heap) form frozen :
  h !! emptyPath = Some (ArrayObject [] frozen) →
  ∃ proxy h',
    createControllerProxy form h = Some (proxy, h') ∧
    h ⊆ h' ∧ proxy_at h' proxy form [].
Proof.
  intros Ha.
  destruct (createControllerProxyImpl_ok h form emptyPath [] frozen Ha)
    as (proxy & Hc & Hf & Hat).
  eexists _, _. split_and!; [exact Hc| |exact Hat].
  by apply insert_subseteq.
Qed.

(** Printing a string key gives the key. *)
Lemma String_of_StringKey (ks : list string) :
  String_of <$> (StringKey <$> ks) = ks.
Proof. induction ks as [|k ks IH]; [done|]. cbn. by rewrite IH. Qed.

(** What the whole call returns, for any heap in which the module constant
    [emptyPath] is intact. *)
Lemma call_path_ok {E : Type} (h : Heap) (frm : Form)
    (steps : list PropertyKey) (rnd : FieldProps → E) frozen :
  h !! emptyPath = Some (ArrayObject [] frozen) →
  ∃ h',
    h ⊆ h' ∧
    call_path frm steps rnd h =
      Some (FieldControllerElement {|
              form := frm;
              name :=
                if Str.endsWith (Str.join (String_of <$> steps) ".")
                     optionalIndicator
                then Str.slice (Str.join (String_of <$> steps) ".") 0 (-1)
                else Str.join (String_of <$> steps) ".";
              render := rnd;
              required :=
                Some (negb (Str.endsWith (Str.join (String_of <$> steps) ".")
                              optionalIndicator));
            |}, h').
Proof.
  intros Hempty.
  destruct (createControllerProxy_ok h frm frozen Hempty)
    as (root & h1 & Hroot & Hsub1 & Hat1).
  destruct (access_ok steps h1 root frm [] Hat1)
    as (proxy & h2 & Hacc & Hsub2 & Hat2).
  exists h2. split; [by etrans|].
  unfold call_path.
  run_bind ltac:(exact Hroot). run_bind ltac:(exact Hacc).
  apply (handler_apply_ok h2 proxy frm _ rnd Hat2).
Qed.

(** The name the [apply] trap computes, stated without [endsWith] and
    [slice]: a final "$" is dropped, and nothing else changes. *)
Lemma stripped_name (joined : string) :
  let fieldName :=
    if Str.endsWith joined optionalIndicator
    then Str.slice joined 0 (-1) else joined in
  (∀ p, joined = p +:+ "$" → fieldName = p) ∧
  ((∀ p, joined ≠ p +:+ "$") → fieldName = joined).
Proof.
  cbv zeta. split.
  - intros p ->. unfold optionalIndicator.
    rewrite endsWith_app. apply slice_drop_last.
  - intros Hno. destruct (Str.endsWith joined optionalIndicator) eqn:Hends.
    + apply endsWith_spec in Hends as [p Hp]. by destruct (Hno p).
    + done.
Qed.

(** C1.  For every finite sequence of property accesses performed on the
    proxy returned by [createControllerProxy form], calling the resulting
    proxy with a render function returns a [FieldController] element whose
    [form] prop is the original form, whose [render] prop is the given
    function, and whose [name] prop is the accessed keys (each printed by
    [String]) joined with ".", with one final "$" removed if there is one. *)
Theorem proxy_call_returns_FieldController_element {E : Type} (h : Heap)
    (frm : Form) (steps : list PropertyKey) (rnd : FieldProps → E) :
  h !! emptyPath = Some (ArrayObject [] true) →
  ∃ h' props,
    call_path frm steps rnd h = Some (FieldControllerElement props, h') ∧
    form props = frm ∧
    render props = rnd ∧
    (∀ p, Str.join (String_of <$> steps) "." = p +:+ "$" → name props = p) ∧
    ((∀ p, Str.join (String_of <$> steps) "." ≠ p +:+ "$") →
     name props = Str.join (String_of <$> steps) ".").
Proof.
  intros Hempty.
  destruct (call_path_ok h frm steps rnd true Hempty) as (h' & _ & Hcall).
  eexists h', _. split; [exact Hcall|].
  split; [done|]. split; [done|].
  apply stripped_name.
Qed.

(** C9.  A property access mutates nothing: the [get] trap returns a proxy
    that did not exist before, whose path is a new array holding the old
    elements followed by the key; every object of the old heap, the path of
    the accessed proxy and the frozen [emptyPath] among them, is as it was.
    Hence a second access from the same proxy gets its own path, and the
    accessed proxy still yields the element it yielded before. *)
Theorem get_trap_mutates_nothing (h : Heap) (proxy : loc) (frm : Form)
    (elements : list string) (step : PropertyKey) :
  proxy_at h proxy frm elements →
  ∃ proxy' path' h',
    handler_get proxy step h = Some (proxy', h') ∧
    h !! proxy' = None ∧ h !! path' = None ∧
    h' !! proxy' = Some (ProxyObject frm path') ∧
    h' !! path' = Some (ArrayObject (elements ++ [String_of step]) false) ∧
    (∀ l o, h !! l = Some o → h' !! l = Some o) ∧
    (∀ l, l ≠ proxy' → l ≠ path' → h' !! l = h !! l) ∧
    (h !! emptyPath = Some (ArrayObject [] true) →
     h' !! emptyPath = Some (ArrayObject [] true)) ∧
    proxy_at h' proxy frm elements ∧
    (∀ (E : Type) (rnd : FieldProps → E),
       ∃ el, handler_apply proxy rnd h = Some (el, h) ∧
             handler_apply proxy rnd h' = Some (el, h')) ∧
    (∀ step2, ∃ proxy2 h2,
       handler_get proxy step2 h' = Some (proxy2, h2) ∧
       proxy2 ≠ proxy' ∧
       proxy_at h2 proxy2 frm (elements ++ [String_of step2]) ∧
       proxy_at h2 proxy' frm (elements ++ [String_of step]) ∧
       proxy_at h2 proxy frm elements).
Proof.
  intros Hat.
  destruct (handler_get_ok h proxy frm elements step Hat)
    as (proxy' & path' & Hget & Hfa & Hfp & Hne).
  set (h' := <[proxy' := ProxyObject frm path']>
               (<[path' := ArrayObject (elements ++ [String_of step]) false]> h))
    in *.
  assert (h ⊆ h') as Hsub.
  { etrans; [apply insert_subseteq, Hfa|].
    apply insert_subseteq. by rewrite lookup_insert_ne. }
  assert (proxy_at h' proxy' frm (elements ++ [String_of step])) as Hat'.
  { exists path', false. split; [apply lookup_insert_eq|].
    unfold h'. rewrite lookup_insert_ne by done. apply lookup_insert_eq. }
  exists proxy', path', h'. split_and!; try done.
  - apply lookup_insert_eq.
  - unfold h'. rewrite lookup_insert_ne by done. apply lookup_insert_eq.
  - intros l o Hl. by eapply lookup_weaken.
  - intros l Hl1 Hl2. unfold h'. by rewrite !lookup_insert_ne.
  - intros Hempty. by eapply lookup_weaken.
  - by eapply proxy_at_mono.
  - intros E rnd. eexists. split.
    + by apply handler_apply_ok.
    + apply handler_apply_ok. by eapply proxy_at_mono.
  - intros step2.
    destruct (handler_get_proxy_at h' proxy frm elements step2)
      as (proxy2 & h2 & Hget2 & Hsub2 & Hf2 & Hat2).
    { by eapply proxy_at_mono. }
    exists proxy2, h2. split_and!; try done.
    + intros ->. unfold h' in Hf2. by rewrite lookup_insert_eq in Hf2.
    + by eapply proxy_at_mono.
    + eapply proxy_at_mono; [|exact Hat]. by etrans.
Qed.

(** C7, as the program has it.  The optional indicator is handled when the
    program runs: the [apply] trap gives the element the indicator-erased
    variant gives exactly when the joined path does not end with "$".  When
    the path is [p] followed by "$", the trap gives the name [p] and
    [required = false] where the variant gives the whole path and
    [required = true]. *)
Theorem apply_agrees_with_erased_iff_no_indicator {E : Type} (h : Heap)
    (proxy : loc) (frm : Form) (elements : list string)
    (rnd : FieldProps → E) :
  proxy_at h proxy frm elements →
  (apply_is_indicator_free h proxy rnd
   ↔ ∀ p, Str.join elements "." ≠ p +:+ "$") ∧
  (∀ p, Str.join elements "." = p +:+ "$" →
     handler_apply proxy rnd h =
       Some (FieldControllerElement
               {| form := frm; name := p; render := rnd;
                  required := Some false |}, h) ∧
     handler_apply_erased proxy rnd h =
       Some (FieldControllerElement
               {| form := frm; name := p +:+ "$"; render := rnd;
                  required := Some true |}, h)).
Proof.
  intros Hat. unfold apply_is_indicator_free.
  rewrite (handler_apply_ok h proxy frm elements rnd Hat).
  destruct Hat as (path & frozen & Hp & Ha).
  unfold handler_apply_erased.
  run_bind ltac:(by apply load_proxy_Some).
  run_bind ltac:(by eapply load_array_Some).
  unfold mret, M_ret.
  split.
  - destruct (Str.endsWith (Str.join elements ".") optionalIndicator) eqn:Hends.
    + split; [intros Heq; cbn in Heq; congruence|].
      intros Hno. apply endsWith_spec in Hends as [p Hp']. by destruct (Hno p).
    + split; [|done]. intros _ p Hp'.
      assert (Str.endsWith (Str.join elements ".") optionalIndicator = true)
        as Ht by (apply endsWith_spec; eauto).
      congruence.
  - intros p ->. unfold optionalIndicator.
    rewrite endsWith_app, slice_drop_last. done.
Qed.

End ProxyFacts.

(** ** The props of the renderer and of [Controller] *)
Section Adapter_facts.

Context `{Host}.

(** C2.  For every access path the call makes one field name and one
    required flag: the name is what [Controller] is given and the flag is the
    [required] member of the object the renderer is called with, and the
    renderer is called with it whenever the field state is not invalid or
    flattening its error returns.  The flag is true exactly when the
    dot-joined path does not end with "$"; when the path is [p] followed by
    "$", the name is [p] and the flag is false. *)
Theorem required_iff_path_lacks_indicator (h : Heap) (frm : Form)
    (steps : list PropertyKey) :
  h !! emptyPath = Some (ArrayObject [] true) →
  ∃ (fieldName : string) (req : bool),
    (∀ (E : Type) (rnd : FieldProps → E),
       ∃ h' c,
         call_path frm steps rnd h =
           Some (FieldControllerElement
                   {| form := frm; name := fieldName; render := rnd;
                      required := Some req |}, h') ∧
         FieldController
           {| form := frm; name := fieldName; render := rnd;
              required := Some req |} = ControllerElement c ∧
         controller_name c = fieldName) ∧
    (∀ arg o, render_called_with frm fieldName (Some req) arg o →
              member o "required" = Some (PData (JSBoolean req))) ∧
    (∀ arg, invalid (fieldState arg) = false →
            ∃ o, render_called_with frm fieldName (Some req) arg o ∧
                 member o "required" = Some (PData (JSBoolean req))) ∧
    (∀ arg e, invalid (fieldState arg) = true →
              flattenErrors ObjectToString (error (fieldState arg)) = Return e →
              ∃ o, render_called_with frm fieldName (Some req) arg o ∧
                   member o "required" = Some (PData (JSBoolean req))) ∧
    (req = true ↔ ∀ p, Str.join (String_of <$> steps) "." ≠ p +:+ "$") ∧
    (∀ p, Str.join (String_of <$> steps) "." = p +:+ "$" →
          fieldName = p ∧ req = false) ∧
    ((∀ p, Str.join (String_of <$> steps) "." ≠ p +:+ "$") →
     fieldName = Str.join (String_of <$> steps) ".").
Proof.
  intros Hempty.
  set (joined := Str.join (String_of <$> steps) ".").
  exists (if Str.endsWith joined optionalIndicator
          then Str.slice joined 0 (-1) else joined),
         (negb (Str.endsWith joined optionalIndicator)).
  destruct (stripped_name joined) as [Hstrip Hkeep]. cbv zeta in Hstrip, Hkeep.
  split_and!.
  - intros E rnd.
    destruct (call_path_ok h frm steps rnd true Hempty) as (h' & _ & Hcall).
    eexists h', _. split_and!; [exact Hcall|reflexivity|reflexivity].
  - intros arg o (e & _ & ->)%render_called_with_inv. reflexivity.
  - intros arg Hvalid. eexists. split.
    + apply (render_called_with_intro frm _ _ arg JSUndefined).
      by rewrite Hvalid.
    + reflexivity.
  - intros arg e Hinvalid He. eexists. split.
    + apply (render_called_with_intro frm _ _ arg e). by rewrite Hinvalid.
    + reflexivity.
  - rewrite negb_true_iff. split.
    + intros Hends p Hp.
      assert (Str.endsWith joined optionalIndicator = true) as Ht
        by (apply endsWith_spec; eauto).
      congruence.
    + intros Hno. destruct (Str.endsWith joined optionalIndicator) eqn:Hends;
        [|done].
      apply endsWith_spec in Hends as [p Hp]. by destruct (Hno p).
  - intros p Hp. split; [by apply Hstrip|].
    apply negb_false_iff, endsWith_spec. eauto.
  - exact Hkeep.
Qed.

(** C4.  The [error] member defaults to absent: when the field state is not
    invalid the renderer is called and [error] is [undefined]
    ([flattenErrors] of an absent structure is [undefined] too); when it is
    invalid, [error] is what [flattenErrors] returns for the field's error.
    Every call of the renderer is one of the two. *)
Theorem error_member_absent_or_flattened (frm : Form) (nm : string)
    (req : option bool) (arg : ControllerRenderProps) :
  flattenErrors ObjectToString JSUndefined = Return JSUndefined ∧
  (invalid (fieldState arg) = false →
     ∃ o, render_called_with frm nm req arg o ∧
          member o "error" = Some (PData JSUndefined)) ∧
  (invalid (fieldState arg) = true →
     ∀ e, flattenErrors ObjectToString (error (fieldState arg)) = Return e →
          ∃ o, render_called_with frm nm req arg o ∧
               member o "error" = Some (PData e)) ∧
  (∀ o, render_called_with frm nm req arg o →
     (invalid (fieldState arg) = false ∧
      member o "error" = Some (PData JSUndefined)) ∨
     (invalid (fieldState arg) = true ∧
      ∃ e, flattenErrors ObjectToString (error (fieldState arg)) = Return e ∧
           member o "error" = Some (PData e))).
Proof.
  split_and!.
  - reflexivity.
  - intros Hvalid. eexists. split.
    + apply render_called_with_intro. by rewrite Hvalid.
    + reflexivity.
  - intros Hinvalid e He. eexists. split.
    + apply render_called_with_intro. by rewrite Hinvalid.
    + reflexivity.
  - intros o (e & He & ->)%render_called_with_inv.
    destruct (invalid (fieldState arg)).
    + right. split; [done|]. by exists e.
    + left. injection He as <-. done.
Qed.

(** C5.  The [onChange] member is a value setter: called with [v], it does
    what one call of the library's [field.onChange] with the event
    [{ type: "change", target: { value: v, name } }] does, and nothing else.
    In particular, whatever way the library's calls are logged, the log grows
    by that one event. *)
Theorem onChange_is_value_setter (frm : Form) (nm : string)
    (req : option bool) (arg : ControllerRenderProps) (o : FieldProps) :
  render_called_with frm nm req arg o →
  ∃ setter : Value → Effect,
    member o "onChange" = Some (PChange setter) ∧
    (∀ v w,
       setter v w =
       field_onChange (field arg)
         {| event_type := "change";
            event_target := {| target_value := v; target_name := nm |} |} w) ∧
    (∀ calls : World → list (ChangeEvent Value),
       (∀ ev w, calls (field_onChange (field arg) ev w).2 = calls w ++ [ev]) →
       ∀ v w,
         calls (setter v w).2 =
         calls w ++ [{| event_type := "change";
                        event_target := {| target_value := v;
                                           target_name := nm |} |}]).
Proof.
  intros (e & _ & ->)%render_called_with_inv.
  eexists. split_and!.
  - reflexivity.
  - reflexivity.
  - intros calls Hlog v w. apply Hlog.
Qed.

(** C6, as the program has it.  The adapter evaluates no rule itself, but it
    registers the field with one rule of its own: [rules] is the object
    [{ required }], whose only member is the [required] prop.  No rule is
    contributed exactly when that prop is not [true]. *)
Theorem rules_are_the_required_flag {E : Type} (props : FieldControllerProps E) :
  ∃ c,
    FieldController props = ControllerElement c ∧
    controller_rules c = literal [("required", optional_boolean (required props))] ∧
    (contributes_no_rules (controller_rules c) ↔ required props ≠ Some true).
Proof.
  eexists. split_and!; [reflexivity..|].
  cbn. rewrite Forall_singleton. cbn.
  destruct (required props) as [[]|]; cbn; naive_solver.
Qed.

(** C8, as the program has it.  The object the renderer is called with has
    exactly the members [value], [name], [onBlur], [onChange], [error] and
    [required], in this order: the five normalised props and the field name. *)
Theorem renderer_gets_six_members (frm : Form) (nm : string)
    (req : option bool) (arg : ControllerRenderProps) (o : FieldProps) :
  render_called_with frm nm req arg o →
  keys o = ["value"; "name"; "onBlur"; "onChange"; "error"; "required"] ∧
  member o "value" = Some (PValue (field_value (field arg))) ∧
  member o "name" = Some (PData (JSString nm)) ∧
  member o "onBlur" = Some (PBlur (field_onBlur (field arg))) ∧
  member o "required" = Some (PData (optional_boolean req)).
Proof.
  intros (e & _ & ->)%render_called_with_inv. by split_and!.
Qed.

End Adapter_facts.

(** ** The theorems at concrete inputs *)

#[local] Existing Instance spy_host.

Lemma proxy_call_returns_FieldController_element_witness :
  @initialHeap spy_host !! emptyPath = Some (ArrayObject [] true) ∧
  ∃ h' props,
    call_path (H := spy_host) "form" [StringKey "user"; StringKey "email$"]
      (λ o : FieldProps, o) initialHeap
    = Some (FieldControllerElement props, h') ∧
    form props = "form" ∧
    render props = (λ o : FieldProps, o) ∧
    (∀ p, "user.email$" = p +:+ "$" → name props = p) ∧
    ((∀ p, "user.email$" ≠ p +:+ "$") → name props = "user.email$").
Proof.
  split; [reflexivity|].
  apply (proxy_call_returns_FieldController_element (H := spy_host)
           initialHeap "form" [StringKey "user"; StringKey "email$"]
           (λ o : FieldProps, o)).
  reflexivity.
Defined.

Example call_path_user_email :
  fst <$> call_path (H := spy_host) "form"
            [StringKey "user"; StringKey "email$"] (λ o : FieldProps, o)
            initialHeap
  = Some (FieldControllerElement
            (@mkFieldControllerProps spy_host _ "form" "user.email"
               (λ o : FieldProps, o) (Some false))).
Proof. vm_compute. reflexivity. Qed.

Example call_path_symbol_key :
  fst <$> call_path (H := spy_host) "form"
            [StringKey "a"; SymbolKey (Some "tag")] (λ o : FieldProps, o)
            initialHeap
  = Some (FieldControllerElement
            (@mkFieldControllerProps spy_host _ "form" "a.Symbol(tag)"
               (λ o : FieldProps, o) (Some true))).
Proof. vm_compute. reflexivity. Qed.

Lemma required_iff_path_lacks_indicator_witness :
  @initialHeap spy_host !! emptyPath = Some (ArrayObject [] true) ∧
  (∃ h',
     call_path (H := spy_host) "form" [StringKey "nickname$"]
       (λ o : FieldProps, o) initialHeap =
     Some (FieldControllerElement
             (@mkFieldControllerProps spy_host FieldProps "form" "nickname"
                (λ o : FieldProps, o) (Some false)), h')) ∧
  (∃ o, render_called_with (H := spy_host) "form" "nickname" (Some false)
          (spy_arg false JSUndefined) o ∧
        member o "required" = Some (PData (JSBoolean false))) ∧
  (∃ o, render_called_with (H := spy_host) "form" "nickname" (Some false)
          (spy_arg true (literal [("message", JSString "Too long")])) o ∧
        member o "required" = Some (PData (JSBoolean false))) ∧
  (
  ∃ (fieldName : string) (req : bool),
    (∀ (E : Type) (rnd : FieldProps → E),
       ∃ h' c,
         call_path (H := spy_host) "form" [StringKey "nickname$"] rnd initialHeap =
           Some (FieldControllerElement
                   (@mkFieldControllerProps spy_host E "form" fieldName rnd
                      (Some req)), h') ∧
         FieldController
           (@mkFieldControllerProps spy_host E "form" fieldName rnd
              (Some req)) = ControllerElement c ∧
         controller_name c = fieldName) ∧
    (∀ arg o, render_called_with (H := spy_host) "form" fieldName (Some req) arg o →
              member o "required" = Some (PData (JSBoolean req))) ∧
    (∀ arg, invalid (fieldState arg) = false →
            ∃ o, render_called_with (H := spy_host) "form" fieldName (Some req) arg o ∧
                 member o "required" = Some (PData (JSBoolean req))) ∧
    (∀ arg e, invalid (fieldState arg) = true →
              flattenErrors ObjectToString (error (fieldState arg)) = Return e →
              ∃ o, render_called_with (H := spy_host) "form" fieldName (Some req) arg o ∧
                   member o "required" = Some (PData (JSBoolean req))) ∧
    (req = true ↔ ∀ p, "nickname$" ≠ p +:+ "$") ∧
    (∀ p, "nickname$" = p +:+ "$" → fieldName = p ∧ req = false) ∧
    ((∀ p, "nickname$" ≠ p +:+ "$") → fieldName = "nickname$")).
Proof.
  split; [reflexivity|].
  pose proof (required_iff_path_lacks_indicator (H := spy_host)
                initialHeap "form" [StringKey "nickname$"] eq_refl) as Hthm.
  split_and!; [| | |exact Hthm];
    destruct Hthm as (fieldName & req & Hcall & _ & Hvalid & Hinvalid & _
                      & Hstrip & _);
    destruct (Hstrip "nickname" eq_refl) as [-> ->].
  - destruct (Hcall FieldProps (λ o : FieldProps, o)) as (h' & c & Hc & _).
    by exists h'.
  - exact (Hvalid (spy_arg false JSUndefined) eq_refl).
  - exact (Hinvalid (spy_arg true (literal [("message", JSString "Too long")]))
             (JSString "Too long") eq_refl eq_refl).
Defined.

Lemma get_trap_mutates_nothing_witness :
  proxy_at spy_heap 3 "form" ["a$"] ∧
  ∃ proxy' path' h',
    handler_get 3 (StringKey "b") spy_heap = Some (proxy', h') ∧
    spy_heap !! proxy' = None ∧ spy_heap !! path' = None ∧
    h' !! proxy' = Some (ProxyObject "form" path') ∧
    h' !! path' = Some (ArrayObject ["a$"; "b"] false) ∧
    (∀ l o, spy_heap !! l = Some o → h' !! l = Some o) ∧
    (∀ l, l ≠ proxy' → l ≠ path' → h' !! l = spy_heap !! l) ∧
    (spy_heap !! emptyPath = Some (ArrayObject [] true) →
     h' !! emptyPath = Some (ArrayObject [] true)) ∧
    proxy_at h' 3 "form" ["a$"] ∧
    (∀ (E : Type) (rnd : FieldProps → E),
       ∃ el, handler_apply 3 rnd spy_heap = Some (el, spy_heap) ∧
             handler_apply 3 rnd h' = Some (el, h')) ∧
    (∀ step2, ∃ proxy2 h2,
       handler_get 3 step2 h' = Some (proxy2, h2) ∧
       proxy2 ≠ proxy' ∧
       proxy_at h2 proxy2 "form" (["a$"] ++ [String_of step2]) ∧
       proxy_at h2 proxy' "form" ["a$"; "b"] ∧
       proxy_at h2 3 "form" ["a$"]).
Proof.
  assert (proxy_at spy_heap 3 "form" ["a$"]) as Hat.
  { exists 2, false. split; reflexivity. }
  split; [exact Hat|].
  exact (get_trap_mutates_nothing (H := spy_host) spy_heap 3 "form" ["a$"]
           (StringKey "b") Hat).
Defined.

Lemma apply_agrees_with_erased_iff_no_indicator_witness :
  proxy_at spy_heap 3 "form" ["a$"] ∧
  (apply_is_indicator_free spy_heap 3 (λ o : FieldProps, o)
   ↔ ∀ p, "a$" ≠ p +:+ "$") ∧
  (∀ p, "a$" = p +:+ "$" →
     handler_apply 3 (λ o : FieldProps, o) spy_heap =
       Some (FieldControllerElement
               (@mkFieldControllerProps spy_host _ "form" p
                  (λ o : FieldProps, o) (Some false)), spy_heap) ∧
     handler_apply_erased 3 (λ o : FieldProps, o) spy_heap =
       Some (FieldControllerElement
               (@mkFieldControllerProps spy_host _ "form" (p +:+ "$")
                  (λ o : FieldProps, o) (Some true)), spy_heap)).
Proof.
  assert (proxy_at spy_heap 3 "form" ["a$"]) as Hat.
  { exists 2, false. split; reflexivity. }
  split; [exact Hat|].
  exact (apply_agrees_with_erased_iff_no_indicator (H := spy_host) spy_heap 3
           "form" ["a$"] (λ o : FieldProps, o) Hat).
Defined.

(** C7 fails as stated: on the path "a$" the [apply] trap gives the name "a"
    and [required = false], the indicator-erased variant the name "a$" and
    [required = true]. *)
Lemma apply_depends_on_indicator :
  (root ← createControllerProxy (H := spy_host) "form";
   access root [StringKey "a$"]) initialHeap = Some (3, spy_heap) ∧
  fst <$> handler_apply 3 (λ o : FieldProps, o) spy_heap
    = Some (FieldControllerElement
              (@mkFieldControllerProps spy_host _ "form" "a"
                 (λ o : FieldProps, o) (Some false))) ∧
  fst <$> handler_apply_erased 3 (λ o : FieldProps, o) spy_heap
    = Some (FieldControllerElement
              (@mkFieldControllerProps spy_host _ "form" "a$"
                 (λ o : FieldProps, o) (Some true))) ∧
  ¬ apply_is_indicator_free spy_heap 3 (λ o : FieldProps, o).
Proof.
  split_and!.
  - vm_compute. reflexivity.
  - vm_compute. reflexivity.
  - vm_compute. reflexivity.
  - unfold apply_is_indicator_free. intros Heq.
    apply (f_equal (fmap fst)) in Heq. vm_compute in Heq. congruence.
Qed.

(** [flattenErrors_cases] on a sample structure. *)
Lemma flattenErrors_cases_sample :
  ErrorTree sample_errors ∧
  flattenErrors ObjectToString JSUndefined = Return JSUndefined ∧
  flattenErrors ObjectToString
    (literal [("type", JSString "pattern"); ("message", JSString "Invalid email")])
  = Return (JSString "Invalid email") ∧
  flattenErrors ObjectToString sample_errors
  = Return (JSString ("Invalid email" +:+ newline +:+ newline +:+
                      "Street is required")) ∧
  ∃ r, flattenErrors ObjectToString sample_errors = Return r.
Proof.
  assert (ErrorTree sample_errors) as Htree.
  { apply ErrorTree_node; [reflexivity|].
    repeat apply Forall_cons_2; try apply Forall_nil_2.
    - by apply ErrorTree_leaf.
    - by apply ErrorTree_leaf.
    - apply ErrorTree_node; [reflexivity|].
      apply Forall_cons_2; [by apply ErrorTree_leaf | apply Forall_nil_2]. }
  split; [exact Htree|].
  split; [exact (proj1 (flattenErrors_cases ObjectToString JSUndefined) eq_refl)|].
  split.
  { exact (proj1 (proj2 (flattenErrors_cases ObjectToString
               (literal [("type", JSString "pattern");
                         ("message", JSString "Invalid email")])))
             (properties_of
                (literal [("type", JSString "pattern");
                          ("message", JSString "Invalid email")]))
             eq_refl eq_refl). }
  split.
  { exact (proj1 (proj2 (proj2 (flattenErrors_cases ObjectToString sample_errors)))
             (properties_of sample_errors) eq_refl eq_refl). }
  exact (proj2 (proj2 (proj2 (flattenErrors_cases ObjectToString sample_errors)))
           Htree).
Defined.

Lemma flattenErrors_leaf_and_empty_segments_witness :
  flattenErrors ObjectToString
    (literal [("type", JSString "min"); ("message", JSUndefined)])
  = Return JSUndefined ∧
  flattenErrors ObjectToString
    (literal [("age", literal [("type", JSString "min"); ("message", JSUndefined)]);
              ("email", literal [("message", JSString "Invalid email")])])
  = Return (JSString ("" +:+ newline +:+ "Invalid email")).
Proof.
  pose proof (flattenErrors_leaf_and_empty_segments ObjectToString)
    as (_ & Hleaf & _ & Hseg).
  split.
  - exact (Hleaf (properties_of (literal [("type", JSString "min");
                                          ("message", JSUndefined)]))
             eq_refl eq_refl).
  - exact (Hseg [] [mkProperty "email" true
                      (literal [("message", JSString "Invalid email")])]
             "age" (literal [("type", JSString "min"); ("message", JSUndefined)])
             [] [JSString "Invalid email"] eq_refl eq_refl eq_refl eq_refl).
Defined.

Lemma error_member_absent_or_flattened_witness :
  (∃ o, render_called_with "form" "email" (Some true)
          (spy_arg false sample_errors) o ∧
        member o "error" = Some (PData JSUndefined)) ∧
  (∃ o, render_called_with "form" "email" (Some true)
          (spy_arg true (literal [("message", JSString "Invalid email")])) o ∧
        member o "error" = Some (PData (JSString "Invalid email"))).
Proof.
  split.
  - exact (proj1 (proj2 (error_member_absent_or_flattened "form" "email"
             (Some true) (spy_arg false sample_errors))) eq_refl).
  - exact (proj1 (proj2 (proj2 (error_member_absent_or_flattened "form" "email"
             (Some true)
             (spy_arg true (literal [("message", JSString "Invalid email")])))))
             eq_refl _ eq_refl).
Defined.

Lemma spy_renderer_called :
  render_called_with "form" "email" (Some true) (spy_arg false JSUndefined)
    (spy_props "email" JSUndefined (Some true)).
Proof. intros E rnd. reflexivity. Defined.

Lemma onChange_is_value_setter_witness :
  render_called_with "form" "email" (Some true) (spy_arg false JSUndefined)
    (spy_props "email" JSUndefined (Some true)) ∧
  ∃ setter : Value → Effect,
    member (spy_props "email" JSUndefined (Some true)) "onChange"
      = Some (PChange setter) ∧
    (∀ v w,
       setter v w =
       spy_onChange
         {| event_type := "change";
            event_target := {| target_value := v; target_name := "email" |} |} w) ∧
    (∀ calls : World → list (ChangeEvent Value),
       (∀ ev w, calls (spy_onChange ev w).2 = calls w ++ [ev]) →
       ∀ v w,
         calls (setter v w).2 =
         calls w ++ [{| event_type := "change";
                        event_target := {| target_value := v;
                                           target_name := "email" |} |}]).
Proof.
  split; [exact spy_renderer_called|].
  exact (onChange_is_value_setter "form" "email" (Some true)
           (spy_arg false JSUndefined) _ spy_renderer_called).
Defined.

(** With the logging [onChange], one call of the setter logs one event. *)
Example setter_logs_one_event :
  ∃ setter : Value → Effect,
    member (spy_props "email" JSUndefined (Some true)) "onChange"
      = Some (PChange setter) ∧
    setter "a@b.c" [] =
      (tt, [{| event_type := "change";
               event_target := {| target_value := "a@b.c";
                                  target_name := "email" |} |}]).
Proof. eexists. split; reflexivity. Qed.

Lemma rules_are_the_required_flag_witness :
  ∃ c,
    FieldController
      (@mkFieldControllerProps spy_host FieldProps "form" "nickname"
         (λ o, o) (Some false)) = ControllerElement c ∧
    controller_rules c = literal [("required", JSBoolean false)] ∧
    (contributes_no_rules (controller_rules c) ↔ Some false ≠ Some true).
Proof.
  exact (rules_are_the_required_flag
           (@mkFieldControllerProps spy_host FieldProps "form" "nickname"
              (λ o, o) (Some false))).
Defined.

(** C6 fails as stated: for the path "a" the adapter gives [Controller] the
    rules [{ required: true }]. *)
Lemma adapter_registers_required_rule :
  ∃ h' props,
    call_path "form" [StringKey "a"] (λ o : FieldProps, o) initialHeap
      = Some (FieldControllerElement props, h') ∧
    (∃ c, FieldController props = ControllerElement c ∧
          controller_rules c = literal [("required", JSBoolean true)]) ∧
    ¬ adapter_adds_no_rules props.
Proof.
  eexists _, _. split_and!.
  - vm_compute. reflexivity.
  - eexists. split; reflexivity.
  - intros Hno. specialize (Hno _ eq_refl). cbn in Hno.
    apply Forall_inv in Hno. discriminate Hno.
Qed.

Lemma renderer_gets_six_members_witness :
  render_called_with "form" "email" (Some true) (spy_arg false JSUndefined)
    (spy_props "email" JSUndefined (Some true)) ∧
  keys (spy_props "email" JSUndefined (Some true))
    = ["value"; "name"; "onBlur"; "onChange"; "error"; "required"] ∧
  member (spy_props "email" JSUndefined (Some true)) "value" = Some (PValue "v") ∧
  member (spy_props "email" JSUndefined (Some true)) "name"
    = Some (PData (JSString "email")) ∧
  member (spy_props "email" JSUndefined (Some true)) "onBlur"
    = Some (PBlur spy_onBlur) ∧
  member (spy_props "email" JSUndefined (Some true)) "required"
    = Some (PData (JSBoolean true)).
Proof.
  split; [exact spy_renderer_called|].
  exact (renderer_gets_six_members "form" "email" (Some true)
           (spy_arg false JSUndefined) _ spy_renderer_called).
Defined.

(** C8 fails as stated: the renderer's object has a sixth member, [name]. *)
Lemma renderer_gets_name_too :
  ¬ renderer_gets_only_the_five "form" "email" (Some true)
      (spy_arg false JSUndefined).
Proof.
  intros Hfive.
  specialize (Hfive _ spy_renderer_called "name").
  assert ("name" ∈ keys (spy_props "email" JSUndefined (Some true))) as Hin.
  { apply (bool_decide_unpack _). vm_compute. exact I. }
  apply Hfive in Hin. revert Hin.
  apply (bool_decide_eq_false_1 _). vm_compute. reflexivity.
Qed.

(** * Further properties of the code *)

(** ** More on strings and joins *)

Lemma string_app_assoc (s t u : string) : (s +:+ t) +:+ u = s +:+ (t +:+ u).
Proof.
  induction s as [|c s IH]; [done|].
  change (String c ((s +:+ t) +:+ u) = String c (s +:+ (t +:+ u))).
  by rewrite IH.
Qed.

Lemma string_app_empty_r (s : string) : s +:+ "" = s.
Proof.
  induction s as [|c s IH]; [done|].
  change (String c (s +:+ "") = String c s). by rewrite IH.
Qed.

(** A string that is not empty has a last character. *)
Lemma string_last_char (s : string) :
  s ≠ "" → ∃ s' c, s = s' +:+ String c "".
Proof.
  induction s as [|c s IH]; [done|]. intros _.
  destruct s as [|d s].
  - by exists "", c.
  - destruct IH as (s' & e & Hs); [done|].
    exists (String c s'), e.
    change (String c (String d s) = String c (s' +:+ String e "")).
    by rewrite <- Hs.
Qed.

(** [endsWith("$")] looks at the last character only. *)
Lemma endsWith_last_char (s : string) (c : Ascii.ascii) :
  Str.endsWith (s +:+ String c "") "$" = Ascii.eqb c (Ascii.ascii_of_nat 36).
Proof.
  unfold Str.endsWith. rewrite string_length_app. cbn [String.length].
  destruct (decide _) as [_|Hn]; [|lia].
  replace (String.length s + 1 - 1) with (String.length s) by lia.
  pose proof (substring_suffix s (String c "")) as Hsuffix.
  cbn [String.length] in Hsuffix. rewrite Hsuffix.
  cbn. by destruct (Ascii.eqb c _).
Qed.

(** Putting something in front of a string changes neither whether it ends
    with the indicator nor what stripping removes, unless the string is empty
    and the thing in front ends with the indicator itself. *)
Lemma strip_indicator_app (pre s : string) :
  s ≠ "" ∨ Str.endsWith pre "$" = false →
  Str.endsWith (pre +:+ s) "$" = Str.endsWith s "$" ∧
  strip_indicator (pre +:+ s) = pre +:+ strip_indicator s.
Proof.
  intros Hs. destruct (decide (s = "")) as [->|Hne].
  - destruct Hs as [|Hpre]; [done|].
    unfold strip_indicator, optionalIndicator.
    rewrite string_app_empty_r, Hpre.
    change (Str.endsWith "" "$") with false. cbv iota.
    by rewrite string_app_empty_r.
  - destruct (string_last_char s Hne) as (s' & c & ->).
    unfold strip_indicator, optionalIndicator.
    rewrite <- string_app_assoc, !endsWith_last_char.
    split; [done|].
    destruct (Ascii.eqb c (Ascii.ascii_of_nat 36)).
    + by rewrite !slice_drop_last.
    + apply string_app_assoc.
Qed.

Lemma join_snoc (xs : list string) (x y : string) (sep : string) :
  Str.join ((x :: xs) ++ [y]) sep = Str.join (x :: xs) sep +:+ sep +:+ y.
Proof.
  unfold Str.join. revert x. induction xs as [|z xs IH]; intros x; [done|].
  cbn [app String.concat] in *. rewrite IH. by rewrite !string_app_assoc.
Qed.

Lemma join_app (xs ys : list string) (sep : string) :
  xs ≠ [] → ys ≠ [] →
  Str.join (xs ++ ys) sep = Str.join xs sep +:+ sep +:+ Str.join ys sep.
Proof.
  unfold Str.join. intros Hxs Hys. induction xs as [|x xs IH]; [done|].
  destruct xs as [|x' xs].
  - destruct ys; [done|]. done.
  - specialize (IH ltac:(done)). cbn [app String.concat] in *.
    rewrite IH. by rewrite !string_app_assoc.
Qed.

Lemma join_cons (x : string) (xs : list string) (sep : string) :
  xs ≠ [] → Str.join (x :: xs) sep = x +:+ sep +:+ Str.join xs sep.
Proof. by destruct xs. Qed.

(** A key that contains the separator is joined like the keys it spells. *)
Lemma join_dotted (pre post : list string) (a b sep : string) :
  Str.join (pre ++ [a; b] ++ post) sep
  = Str.join (pre ++ [a +:+ sep +:+ b] ++ post) sep.
Proof.
  induction pre as [|x pre IH].
  - cbn [app]. rewrite (join_cons a) by done.
    destruct post as [|c post]; [done|].
    rewrite (join_cons b), (join_cons (a +:+ sep +:+ b)) by done.
    by rewrite !string_app_assoc.
  - cbn [app]. rewrite !(join_cons x) by (by destruct pre).
    cbn [app] in IH. by rewrite IH.
Qed.

(** ** More on the proxy *)

(** Run the first computation of a sequence whose outcome is known. *)
Ltac bind_known tac := erewrite M_bind_Some by tac; cbv beta iota.

Section Proxy_more.

Context `{Host}.

Lemma call_path_strip {E : Type} (h : Heap) (frm : Form)
    (steps : list PropertyKey) (rnd : FieldProps → E) :
  h !! emptyPath = Some (ArrayObject [] true) →
  ∃ h',
    h ⊆ h' ∧
    call_path frm steps rnd h =
      Some (FieldControllerElement {|
              form := frm;
              name := strip_indicator (Str.join (String_of <$> steps) ".");
              render := rnd;
              required :=
                Some (negb (Str.endsWith (Str.join (String_of <$> steps) ".")
                              "$"));
            |}, h').
Proof. apply call_path_ok. Qed.

(** X1.  Only the end of the whole path is looked at: the field is optional
    exactly when the last key ends with "$", that one character is removed
    from the last key, and an indicator at the end of any earlier key stays
    in the name.  A root proxy called without any access registers the empty
    name as required. *)
Theorem only_final_indicator_is_stripped {E : Type} (h : Heap) (frm : Form)
    (rnd : FieldProps → E) :
  h !! emptyPath = Some (ArrayObject [] true) →
  (∃ h',
     call_path frm [] rnd h =
       Some (FieldControllerElement
               {| form := frm; name := ""; render := rnd;
                  required := Some true |}, h')) ∧
  (∀ (init : list PropertyKey) (last : PropertyKey),
     ∃ h',
       call_path frm (init ++ [last]) rnd h =
         Some (FieldControllerElement
                 {| form := frm;
                    name := Str.join ((String_of <$> init) ++
                                      [strip_indicator (String_of last)]) ".";
                    render := rnd;
                    required :=
                      Some (negb (Str.endsWith (String_of last) "$")) |},
               h')).
Proof.
  intros Hempty. split.
  - destruct (call_path_strip h frm [] rnd Hempty) as (h' & _ & Hcall).
    by exists h'.
  - intros init last.
    destruct (call_path_strip h frm (init ++ [last]) rnd Hempty)
      as (h' & _ & Hcall).
    exists h'. rewrite Hcall. rewrite fmap_app. cbn [fmap list_fmap].
    destruct (String_of <$> init) as [|x xs]; [done|].
    rewrite !join_snoc, <- !string_app_assoc.
    destruct (strip_indicator_app (Str.join (x :: xs) "." +:+ ".")
                (String_of last)) as [-> ->]; [|done].
    right. apply (endsWith_last_char _ (Ascii.ascii_of_nat 46)).
Qed.

(** X2.  A key that spells a dotted path is the same as the nested accesses:
    [proxy["a.b"]] and [proxy.a.b] lead to equal elements, anywhere in a
    chain. *)
Theorem dotted_key_is_nested_access {E : Type} (h : Heap) (frm : Form)
    (pre post : list PropertyKey) (a b : string) (rnd : FieldProps → E) :
  h !! emptyPath = Some (ArrayObject [] true) →
  ∃ el,
    fst <$> call_path frm (pre ++ [StringKey a; StringKey b] ++ post) rnd h
      = Some el ∧
    fst <$> call_path frm (pre ++ [StringKey (a +:+ "." +:+ b)] ++ post) rnd h
      = Some el.
Proof.
  intros Hempty.
  destruct (call_path_strip h frm (pre ++ [StringKey a; StringKey b] ++ post)
              rnd Hempty) as (h1 & _ & Hcall1).
  destruct (call_path_strip h frm
              (pre ++ [StringKey (a +:+ "." +:+ b)] ++ post) rnd Hempty)
    as (h2 & _ & Hcall2).
  eexists. rewrite Hcall1, Hcall2. split; [reflexivity|].
  rewrite !fmap_app. cbn [fmap list_fmap String_of option_fmap option_map fst].
  by rewrite join_dotted.
Qed.

(** X3.  A proxy kept in a variable can be the start of several chains: from
    [u = proxy.s1], the calls [u.s2(r1)] and [u.s3(r2)] return the elements
    that [proxy.s1.s2(r1)] and [proxy.s1.s3(r2)] return. *)
Theorem shared_prefix_proxy {E : Type} (h : Heap) (frm : Form)
    (s1 s2 s3 : list PropertyKey) (r1 r2 : FieldProps → E) :
  h !! emptyPath = Some (ArrayObject [] true) →
  ∃ e1 e2 h',
    (root ← createControllerProxy frm;
     u ← access root s1;
     q1 ← access u s2;
     e1 ← handler_apply q1 r1;
     q2 ← access u s3;
     e2 ← handler_apply q2 r2;
     mret (e1, e2)) h = Some ((e1, e2), h') ∧
    fst <$> call_path frm (s1 ++ s2) r1 h = Some e1 ∧
    fst <$> call_path frm (s1 ++ s3) r2 h = Some e2.
Proof.
  intros Hempty.
  destruct (createControllerProxy_ok h frm true Hempty)
    as (root & h0 & Hroot & _ & Hat0).
  destruct (access_ok s1 h0 root frm [] Hat0) as (u & hu & Hu & _ & Hatu).
  destruct (access_ok s2 hu u frm _ Hatu) as (q1 & h1 & Hq1 & Hsub1 & Hat1).
  pose proof (proxy_at_mono hu h1 u frm _ Hsub1 Hatu) as Hatu1.
  destruct (access_ok s3 h1 u frm _ Hatu1) as (q2 & h2 & Hq2 & _ & Hat2).
  destruct (call_path_ok h frm (s1 ++ s2) r1 true Hempty) as (h1' & _ & Hc1).
  destruct (call_path_ok h frm (s1 ++ s3) r2 true Hempty) as (h2' & _ & Hc2).
  eexists _, _, h2. split_and!.
  - bind_known ltac:(exact Hroot). bind_known ltac:(exact Hu).
    bind_known ltac:(exact Hq1).
    bind_known ltac:(exact (handler_apply_ok h1 q1 frm _ r1 Hat1)).
    bind_known ltac:(exact Hq2).
    bind_known ltac:(exact (handler_apply_ok h2 q2 frm _ r2 Hat2)).
    reflexivity.
  - rewrite Hc1. cbn. by rewrite fmap_app.
  - rewrite Hc2. cbn. by rewrite fmap_app.
Qed.

End Proxy_more.

(** ** The heap under client programs *)
Section Heap_more.

Context `{Host}.






Lemma handler_get_Some_inv (h h' : Heap) (proxy proxy' : loc)
    (step : PropertyKey) :
  handler_get proxy step h = Some (proxy', h') →
  ∃ form elements, proxy_at h proxy form elements.
Proof.
  unfold handler_get, mbind, M_bind, load_proxy, load_array.
  destruct (h !! proxy) as [[|form path]|] eqn:Hp; [done| |done].
  destruct (h !! path) as [[elements frozen|]|] eqn:Ha; [|done..].
  intros _. by exists form, elements, path, frozen.
Qed.

Lemma handler_apply_Some_inv {E : Type} (h h' : Heap) (proxy : loc)
    (rnd : FieldProps → E) (el : ReactElement E) :
  handler_apply proxy rnd h = Some (el, h') →
  ∃ form elements, proxy_at h proxy form elements.
Proof.
  unfold handler_apply, mbind, M_bind, load_proxy, load_array.
  destruct (h !! proxy) as [[|form path]|] eqn:Hp; [done| |done].
  destruct (h !! path) as [[elements frozen|]|] eqn:Ha; [|done..].
  intros _. by exists form, elements, path, frozen.
Qed.

Lemma run_operation_grows (op : Operation) (h h' : Heap) :
  run_operation op h = Some (tt, h') → h ⊆ h'.
Proof.
  destruct op as [form|proxy step|proxy]; cbn [run_operation]; intros Hrun.
  - destruct (alloc_fresh (ProxyObject form emptyPath) h) as (l & Hl & Hfresh).
    unfold createControllerProxy, createControllerProxyImpl in Hrun.
    erewrite M_bind_Some in Hrun by exact Hl.
    injection Hrun as <-. by apply insert_subseteq.
  - destruct (handler_get proxy step h) as [[q h1]|] eqn:Hget.
    + erewrite M_bind_Some in Hrun by exact Hget. injection Hrun as <-.
      destruct (handler_get_Some_inv _ _ _ _ _ Hget) as (form & els & Hat).
      destruct (handler_get_proxy_at h proxy form els step Hat)
        as (q' & h'' & Hget' & Hsub & _).
      rewrite Hget in Hget'. by injection Hget' as _ <-.
    + unfold mbind, M_bind in Hrun. by rewrite Hget in Hrun.
  - destruct (handler_apply proxy (λ o : FieldProps, o) h)
      as [[el h1]|] eqn:Happ.
    + erewrite M_bind_Some in Hrun by exact Happ. injection Hrun as <-.
      destruct (handler_apply_Some_inv _ _ _ _ _ Happ) as (form & els & Hat).
      rewrite (handler_apply_ok h proxy form els _ Hat) in Happ.
      by injection Happ as _ <-.
    + unfold mbind, M_bind in Hrun. by rewrite Happ in Hrun.
Qed.

Lemma run_operations_grow (ops : list Operation) :
  ∀ h h' : Heap, run_operations ops h = Some (tt, h') → h ⊆ h'.
Proof.
  induction ops as [|op ops IH]; intros h h' Hrun; cbn [run_operations] in Hrun.
  - by injection Hrun as <-.
  - destruct (run_operation op h) as [[[] h1]|] eqn:Hop.
    + erewrite M_bind_Some in Hrun by exact Hop.
      etrans; [by eapply run_operation_grows|by apply IH].
    + unfold mbind, M_bind in Hrun. by rewrite Hop in Hrun.
Qed.

(** X5.  Whatever a client does in between (new root proxies for any form,
    accesses and calls on any proxies), no object that exists is changed, so
    a proxy held from before returns the element it would have returned
    before, and [emptyPath] stays the frozen empty array. *)
Theorem held_proxy_unaffected {E : Type} (ops : list Operation)
    (h h' : Heap) (proxy : loc) (frm : Form) (elements : list string)
    (rnd : FieldProps → E) :
  run_operations ops h = Some (tt, h') →
  proxy_at h proxy frm elements →
  (∀ l o, h !! l = Some o → h' !! l = Some o) ∧
  (∃ el, handler_apply proxy rnd h = Some (el, h) ∧
         handler_apply proxy rnd h' = Some (el, h')) ∧
  (h !! emptyPath = Some (ArrayObject [] true) →
   h' !! emptyPath = Some (ArrayObject [] true)).
Proof.
  intros Hrun Hat.
  pose proof (run_operations_grow ops h h' Hrun) as Hsub.
  split_and!.
  - intros l o Hl. by eapply lookup_weaken.
  - eexists. split.
    + by apply handler_apply_ok.
    + apply handler_apply_ok. by eapply proxy_at_mono.
  - intros Hempty. by eapply lookup_weaken.
Qed.

Lemma heap_wf_insert_proxy (h : Heap) (l path : loc) (form : Form)
    elements frozen :
  heap_wf h → h !! l = None →
  h !! path = Some (ArrayObject elements frozen) →
  heap_wf (<[l := ProxyObject form path]> h).
Proof.
  intros [Hempty Hwf] Hfresh Hpath.
  assert (h ⊆ <[l := ProxyObject form path]> h) as Hsub
    by by apply insert_subseteq.
  split; [by eapply lookup_weaken|].
  intros l' form' path' [[-> Heq]|[_ Hl']]%lookup_insert_Some.
  - injection Heq as <- <-. exists elements, frozen. by eapply lookup_weaken.
  - destruct (Hwf l' form' path' Hl') as (els & fr & Ha).
    exists els, fr. by eapply lookup_weaken.
Qed.

Lemma heap_wf_insert_array (h : Heap) (l : loc) elements frozen :
  heap_wf h → h !! l = None →
  heap_wf (<[l := ArrayObject elements frozen]> h).
Proof.
  intros [Hempty Hwf] Hfresh.
  assert (h ⊆ <[l := ArrayObject elements frozen]> h) as Hsub
    by by apply insert_subseteq.
  split; [by eapply lookup_weaken|].
  intros l' form' path' [[_ Heq]|[_ Hl']]%lookup_insert_Some; [done|].
  destruct (Hwf l' form' path' Hl') as (els & fr & Ha).
  exists els, fr. by eapply lookup_weaken.
Qed.

Lemma run_operation_wf (op : Operation) (h h' : Heap) :
  heap_wf h → run_operation op h = Some (tt, h') → heap_wf h'.
Proof.
  intros Hwf.
  destruct op as [form|proxy step|proxy]; cbn [run_operation]; intros Hrun.
  - destruct (alloc_fresh (ProxyObject form emptyPath) h) as (l & Hl & Hfresh).
    unfold createControllerProxy, createControllerProxyImpl in Hrun.
    erewrite M_bind_Some in Hrun by exact Hl.
    injection Hrun as <-.
    eapply heap_wf_insert_proxy; [done..|]. apply Hwf.
  - destruct (handler_get proxy step h) as [[q h1]|] eqn:Hget.
    + erewrite M_bind_Some in Hrun by exact Hget. injection Hrun as <-.
      destruct (handler_get_Some_inv _ _ _ _ _ Hget) as (form & els & Hat).
      destruct (handler_get_ok h proxy form els step Hat)
        as (q' & a' & Hget' & Hfa & Hfq & Hne).
      rewrite Hget in Hget'. injection Hget' as _ ->.
      eapply heap_wf_insert_proxy.
      * by apply heap_wf_insert_array.
      * by rewrite lookup_insert_ne.
      * apply lookup_insert_eq.
    + unfold mbind, M_bind in Hrun. by rewrite Hget in Hrun.
  - destruct (handler_apply proxy (λ o : FieldProps, o) h)
      as [[el h1]|] eqn:Happ.
    + erewrite M_bind_Some in Hrun by exact Happ. injection Hrun as <-.
      destruct (handler_apply_Some_inv _ _ _ _ _ Happ) as (form & els & Hat).
      rewrite (handler_apply_ok h proxy form els _ Hat) in Happ.
      by injection Happ as _ <-.
    + unfold mbind, M_bind in Hrun. by rewrite Happ in Hrun.
Qed.

Lemma initialHeap_wf : heap_wf initialHeap.
Proof.
  split; [apply lookup_singleton_eq|].
  intros l form path Hl. unfold initialHeap in Hl.
  apply lookup_singleton_Some in Hl as [_ Heq]. done.
Qed.

(** X6.  The traps never fail.  After any client program run from the
    loaded module, every proxy there is can be accessed with any key, string
    or symbol, and called with any renderer: each proxy's path is an array
    from which the trap can read. *)
Theorem proxies_always_usable (ops : list Operation) (h : Heap) :
  run_operations ops initialHeap = Some (tt, h) →
  heap_wf h ∧
  ∀ l form path,
    h !! l = Some (ProxyObject form path) →
    (∀ step, ∃ proxy' h', handler_get l step h = Some (proxy', h')) ∧
    (∀ (E : Type) (rnd : FieldProps → E),
       ∃ el, handler_apply l rnd h = Some (el, h)).
Proof.
  assert (∀ ops h0 h1, heap_wf h0 →
            run_operations ops h0 = Some (tt, h1) → heap_wf h1) as Hpres.
  { clear. induction ops as [|op ops IH]; intros h0 h1 Hwf Hrun;
      cbn [run_operations] in Hrun.
    - by injection Hrun as <-.
    - destruct (run_operation op h0) as [[[] h2]|] eqn:Hop.
      + erewrite M_bind_Some in Hrun by exact Hop.
        eapply IH; [|exact Hrun]. by eapply run_operation_wf.
      + unfold mbind, M_bind in Hrun. by rewrite Hop in Hrun. }
  intros Hrun.
  pose proof (Hpres ops _ _ initialHeap_wf Hrun) as Hwf.
  split; [exact Hwf|].
  intros l form path Hl.
  destruct Hwf as [_ Hwf]. destruct (Hwf l form path Hl) as (els & fr & Ha).
  assert (proxy_at h l form els) as Hat by by exists path, fr.
  split.
  - intros step.
    destruct (handler_get_proxy_at h l form els step Hat)
      as (q & h' & Hget & _). eauto.
  - intros E rnd. eexists. by apply handler_apply_ok.
Qed.

End Heap_more.

(** ** More on [flattenErrors] *)
Section flattenErrors_more.

Variable ots : list (Property JSValue) → string.

Lemma mapM_Completion_Return_inv {A B : Type} (f : A → Completion B)
    (xs : list A) (ys : list B) :
  mapM f xs = Return ys → Forall (λ x, ∃ y, f x = Return y) xs.
Proof.
  revert ys. induction xs as [|x xs IH]; intros ys Hm; [constructor|].
  cbn in Hm. destruct (f x) as [y|] eqn:Hy; [|done]. cbn in Hm.
  destruct (mapM f xs) as [ys'|] eqn:Hys; [|done].
  constructor; [by exists y|]. by eapply IH.
Qed.

Lemma mapM_Completion_fmap {A B : Type} (f : A → Completion B) (g : A → B)
    (xs : list A) :
  Forall (λ x, f x = Return (g x)) xs → mapM f xs = Return (g <$> xs).
Proof.
  induction 1 as [|x xs Hx _ IH]; [done|].
  cbn. rewrite Hx. cbn. by rewrite IH.
Qed.

Lemma flattenErrors_Return_inv (e : JSValue) :
  (∃ r, flattenErrors ots e = Return r) → ErrorTree e.
Proof.
  induction e as [ | | b | s | props IH] using JSValue_tree_ind;
    intros [r Hr].
  - by apply ErrorTree_absent.
  - by apply ErrorTree_absent.
  - apply ErrorTree_absent. cbn in *. by destruct b.
  - apply ErrorTree_absent. cbn in *. by destruct (String.eqb s "").
  - rewrite flattenErrors_object in Hr.
    destruct (HasProperty "message" props) eqn:Hmsg;
      [by apply ErrorTree_leaf|].
    apply ErrorTree_node; [done|].
    destruct (mapM (flattenErrors ots) (Object_values props))
      as [rs|] eqn:Hrs; [|done].
    apply mapM_Completion_Return_inv in Hrs.
    unfold Object_values in *. rewrite Forall_fmap in Hrs |- *.
    rewrite Forall_forall in IH, Hrs |- *.
    intros p Hp. apply list_elem_of_filter in Hp as Hp'.
    destruct Hp' as [_ Hin]. cbn. apply IH; [done|]. by apply Hrs.
Qed.

(** X7.  [flattenErrors] returns exactly on the error structures: nodes that
    are falsy, objects with a [message] key, and objects whose enumerable
    values are such nodes again.  On anything else, that is, as soon as a
    node without [message] holds a non-empty string or [true] among its
    enumerable values, however deep, it throws a [TypeError]. *)
Theorem flattenErrors_returns_iff (e : JSValue) :
  ((∃ r, flattenErrors ots e = Return r) ↔ ErrorTree e) ∧
  (flattenErrors ots e = Throw TypeError ↔ ¬ ErrorTree e).
Proof.
  assert ((∃ r, flattenErrors ots e = Return r) ↔ ErrorTree e) as Hiff.
  { split; [apply flattenErrors_Return_inv|apply flattenErrors_returns]. }
  split; [exact Hiff|]. split.
  - intros Hthrow Htree. apply Hiff in Htree as [r Hr]. congruence.
  - intros Hno. destruct (flattenErrors ots e) as [r|[]] eqn:Hr; [|done].
    destruct Hno. apply Hiff. by exists r.
Qed.

Lemma leaf_messages_object (props : list (Property JSValue)) :
  leaf_messages (JSObject props) =
    if HasProperty "message" props
    then match Get props "message" with
         | JSString m => [m]
         | _ => []
         end
    else Object_values props ≫= leaf_messages.
Proof.
  cbn [leaf_messages]. destruct (HasProperty "message" props); [done|].
  unfold Object_values. induction props as [|p props IH]; [done|].
  rewrite filter_cons. destruct (enumerable p) eqn:Hp.
  - rewrite decide_True by done. rewrite fmap_cons, bind_cons. by rewrite IH.
  - rewrite decide_False by done. apply IH.
Qed.

Lemma join_bind {A : Type} (g : A → list string) (xs : list A)
    (sep : string) :
  Forall (λ x, g x ≠ []) xs →
  Str.join (xs ≫= g) sep = Str.join ((λ x, Str.join (g x) sep) <$> xs) sep.
Proof.
  induction 1 as [|x xs Hx Hxs IH]; [done|].
  rewrite bind_cons, fmap_cons.
  destruct xs as [|y ys].
  - cbn. by rewrite app_nil_r.
  - rewrite join_app, join_cons, IH; [done..| |].
    + done.
    + rewrite bind_cons. apply Forall_inv in Hxs.
      destruct (g y); [done|]. done.
Qed.

(** X8.  When every leaf carries a text and no branch is empty, the
    flattened string is the list of all leaf messages, depth first in
    enumeration order, one per line: nesting leaves no trace. *)
Theorem flattenErrors_lists_leaf_messages (e : JSValue) :
  MessageTree e →
  flattenErrors ots e = Return (JSString (Str.join (leaf_messages e) newline)) ∧
  leaf_messages e ≠ [].
Proof.
  induction e as [ | | b | s | props IH] using JSValue_tree_ind;
    intros Htree; [inversion Htree..|].
  rewrite flattenErrors_object, leaf_messages_object.
  inversion Htree as [props' m Hmsg Hget|props' Hmsg Hne Hvals]; subst.
  - by rewrite Hmsg, Hget.
  - rewrite Hmsg.
    assert (Forall (λ v, flattenErrors ots v =
                         Return (JSString (Str.join (leaf_messages v) newline))
                         ∧ leaf_messages v ≠ [])
              (Object_values props)) as Hall.
    { unfold Object_values in *. rewrite Forall_fmap in Hvals |- *.
      rewrite Forall_forall in IH, Hvals |- *.
      intros p Hp. apply list_elem_of_filter in Hp as Hp'.
      destruct Hp' as [_ Hin]. cbn. apply IH; [done|]. by apply Hvals. }
    rewrite (mapM_Completion_fmap _
               (λ v, JSString (Str.join (leaf_messages v) newline)))
      by (eapply Forall_impl; [exact Hall|]; by intros v [Hv _]).
    split.
    + cbn. unfold Array_join. rewrite <- list_fmap_compose.
      rewrite join_bind
        by (eapply Forall_impl; [exact Hall|]; by intros v [_ Hv]).
      done.
    + destruct (Object_values props) as [|v vs]; [done|].
      apply Forall_inv in Hall as [_ Hv]. rewrite bind_cons.
      destruct (leaf_messages v); [done|]. done.
Qed.

End flattenErrors_more.

(** ** More on [FieldController] *)
Section FieldController_more.

Context `{Host}.

(** X9.  When [FieldController] renders: the caller's renderer is called
    exactly when the field state is not invalid or its error is an error
    structure; otherwise, an invalid field whose error holds a non-empty
    string or [true] under a node without [message], the function given to
    [Controller] throws and the renderer is not called. *)
Theorem renderer_called_iff (frm : Form) (nm : string) (req : option bool)
    (arg : ControllerRenderProps) :
  ((∃ o, render_called_with frm nm req arg o) ↔
   invalid (fieldState arg) = false ∨ ErrorTree (error (fieldState arg))) ∧
  (render_not_called frm nm req arg ↔
   invalid (fieldState arg) = true ∧ ¬ ErrorTree (error (fieldState arg))).
Proof.
  assert ((∃ r, flattenErrors ObjectToString (error (fieldState arg)) = Return r)
          ↔ ErrorTree (error (fieldState arg))) as Hret.
  { split; [apply flattenErrors_Return_inv|apply flattenErrors_returns]. }
  assert (flattenErrors ObjectToString (error (fieldState arg)) = Throw TypeError
          ↔ ¬ ErrorTree (error (fieldState arg))) as Hthrow.
  { split.
    - intros Ht Htree. apply Hret in Htree as [r Hr]. congruence.
    - intros Hno.
      destruct (flattenErrors ObjectToString (error (fieldState arg)))
        as [r|[]] eqn:Hr; [|done].
      destruct Hno. apply Hret. by exists r. }
  split; split.
  - intros [o (e & He & _)%render_called_with_inv].
    destruct (invalid (fieldState arg)); [|by left].
    right. apply Hret. by exists e.
  - intros Hok.
    destruct (invalid (fieldState arg)) eqn:Hinv.
    + destruct Hok as [|Htree]; [done|]. apply Hret in Htree as [e He].
      eexists. apply (render_called_with_intro frm nm req arg e).
      by rewrite Hinv.
    + eexists. apply (render_called_with_intro frm nm req arg JSUndefined).
      by rewrite Hinv.
  - intros Hnot. specialize (Hnot FieldProps (λ o, o)).
    unfold FieldController_render in Hnot. cbn [name render required] in Hnot.
    destruct (invalid (fieldState arg)); [|done].
    split; [done|]. apply Hthrow.
    by destruct (flattenErrors ObjectToString (error (fieldState arg)))
      as [e|[]].
  - intros [Hinv Hno]. apply render_not_called_intro; [done|].
    by apply Hthrow.
Qed.

(** What the exported [FieldController] registers and what it shows
    agree, whatever its props: [Controller] gets [form.control]; the [name]
    given to the renderer and the [target.name] of every change event are the
    name registered with [Controller] (not the library's [field.name]); and
    the [required] given to the renderer is the value of the registered
    [required] rule, [undefined] when the prop is left out. *)
Theorem registered_and_rendered_agree {E : Type}
    (props : FieldControllerProps E) (arg : ControllerRenderProps)
    (o : FieldProps) :
  render_called_with (form props) (name props) (required props) arg o →
  ∃ c,
    FieldController props = ControllerElement c ∧
    controller_control c = control (form props) ∧
    member o "name" = Some (PData (JSString (controller_name c))) ∧
    member o "required"
      = Some (PData (Get (properties_of (controller_rules c)) "required")) ∧
    ∃ setter : Value → Effect,
      member o "onChange" = Some (PChange setter) ∧
      ∀ v w, ∃ event,
        setter v w = field_onChange (field arg) event w ∧
        target_name (event_target event) = controller_name c ∧
        target_value (event_target event) = v.
Proof.
  intros (e & _ & ->)%render_called_with_inv.
  eexists. split_and!; [reflexivity..|].
  eexists. split; [reflexivity|].
  intros v w. eexists. split_and!; reflexivity.
Qed.

End FieldController_more.

(** ** The further properties at concrete inputs *)

Lemma only_final_indicator_is_stripped_witness :
  @initialHeap spy_host !! emptyPath = Some (ArrayObject [] true) ∧
  (∃ h',
     call_path "form" [] (λ o : FieldProps, o) initialHeap =
       Some (FieldControllerElement
               (@mkFieldControllerProps spy_host _ "form" ""
                  (λ o : FieldProps, o) (Some true)), h')) ∧
  (∀ (init : list PropertyKey) (last : PropertyKey),
     ∃ h',
       call_path "form" (init ++ [last]) (λ o : FieldProps, o) initialHeap =
         Some (FieldControllerElement
                 (@mkFieldControllerProps spy_host _ "form"
                    (Str.join ((String_of <$> init) ++
                               [strip_indicator (String_of last)]) ".")
                    (λ o : FieldProps, o)
                    (Some (negb (Str.endsWith (String_of last) "$")))),
               h')).
Proof.
  split; [reflexivity|].
  apply (only_final_indicator_is_stripped (H := spy_host) initialHeap "form"
           (λ o : FieldProps, o)).
  reflexivity.
Defined.

(** The indicator of an optional parent stays in the name of its child. *)
Example call_path_optional_parent :
  fst <$> call_path "form" [StringKey "address$"; StringKey "street"]
            (λ o : FieldProps, o) initialHeap
  = Some (FieldControllerElement
            (@mkFieldControllerProps spy_host _ "form" "address$.street"
               (λ o : FieldProps, o) (Some true))).
Proof. vm_compute. reflexivity. Qed.

Lemma dotted_key_is_nested_access_witness :
  @initialHeap spy_host !! emptyPath = Some (ArrayObject [] true) ∧
  ∃ el,
    fst <$> call_path "form" ([] ++ [StringKey "user"; StringKey "email"] ++ [])
              (λ o : FieldProps, o) initialHeap = Some el ∧
    fst <$> call_path "form" ([] ++ [StringKey ("user" +:+ "." +:+ "email")] ++ [])
              (λ o : FieldProps, o) initialHeap = Some el.
Proof.
  split; [reflexivity|].
  apply (dotted_key_is_nested_access (H := spy_host) initialHeap "form" [] []
           "user" "email" (λ o : FieldProps, o)).
  reflexivity.
Defined.

Lemma shared_prefix_proxy_witness :
  @initialHeap spy_host !! emptyPath = Some (ArrayObject [] true) ∧
  ∃ e1 e2 h',
    (root ← createControllerProxy "form";
     u ← access root [StringKey "user"];
     q1 ← access u [StringKey "name"];
     e1 ← handler_apply q1 (λ o : FieldProps, o);
     q2 ← access u [StringKey "email$"];
     e2 ← handler_apply q2 (λ o : FieldProps, o);
     mret (e1, e2)) initialHeap = Some ((e1, e2), h') ∧
    fst <$> call_path "form" ([StringKey "user"] ++ [StringKey "name"])
              (λ o : FieldProps, o) initialHeap = Some e1 ∧
    fst <$> call_path "form" ([StringKey "user"] ++ [StringKey "email$"])
              (λ o : FieldProps, o) initialHeap = Some e2.
Proof.
  split; [reflexivity|].
  apply (shared_prefix_proxy (H := spy_host) initialHeap "form"
           [StringKey "user"] [StringKey "name"] [StringKey "email$"]
           (λ o : FieldProps, o) (λ o : FieldProps, o)).
  reflexivity.
Defined.


Lemma spy_program_runs :
  run_operations spy_program spy_heap = Some (tt, spy_heap_later).
Proof. vm_compute. reflexivity. Defined.

Lemma held_proxy_unaffected_witness :
  run_operations spy_program spy_heap = Some (tt, spy_heap_later) ∧
  proxy_at spy_heap 3 "form" ["a$"] ∧
  (∀ l o, spy_heap !! l = Some o → spy_heap_later !! l = Some o) ∧
  (∃ el, handler_apply 3 (λ o : FieldProps, o) spy_heap = Some (el, spy_heap) ∧
         handler_apply 3 (λ o : FieldProps, o) spy_heap_later
           = Some (el, spy_heap_later)) ∧
  (spy_heap !! emptyPath = Some (ArrayObject [] true) →
   spy_heap_later !! emptyPath = Some (ArrayObject [] true)).
Proof.
  assert (proxy_at spy_heap 3 "form" ["a$"]) as Hat.
  { exists 2, false. split; reflexivity. }
  split; [exact spy_program_runs|]. split; [exact Hat|].
  exact (held_proxy_unaffected (H := spy_host) spy_program spy_heap
           spy_heap_later 3 "form" ["a$"] (λ o : FieldProps, o)
           spy_program_runs Hat).
Defined.

Lemma proxies_always_usable_witness :
  run_operations [@OpCreate spy_host "form"; OpGet 1 (StringKey "a$")]
    initialHeap = Some (tt, spy_heap) ∧
  heap_wf spy_heap ∧
  ∀ l form path,
    spy_heap !! l = Some (ProxyObject form path) →
    (∀ step, ∃ proxy' h', handler_get l step spy_heap = Some (proxy', h')) ∧
    (∀ (E : Type) (rnd : FieldProps → E),
       ∃ el, handler_apply l rnd spy_heap = Some (el, spy_heap)).
Proof.
  assert (run_operations [@OpCreate spy_host "form"; OpGet 1 (StringKey "a$")]
            initialHeap = Some (tt, spy_heap)) as Hrun.
  { vm_compute. reflexivity. }
  split; [exact Hrun|].
  exact (proxies_always_usable (H := spy_host) _ spy_heap Hrun).
Defined.

Lemma flattenErrors_lists_leaf_messages_witness :
  MessageTree sample_messages ∧
  flattenErrors ObjectToString sample_messages
  = Return (JSString ("Invalid email" +:+ newline +:+ "Street is required"
                      +:+ newline +:+ "City is required")) ∧
  leaf_messages sample_messages
  = ["Invalid email"; "Street is required"; "City is required"].
Proof.
  assert (MessageTree sample_messages) as Htree.
  { apply MessageTree_node; [reflexivity|discriminate|].
    repeat apply Forall_cons_2; try apply Forall_nil_2.
    - by eapply MessageTree_leaf.
    - apply MessageTree_node; [reflexivity|discriminate|].
      repeat apply Forall_cons_2; try apply Forall_nil_2;
        by eapply MessageTree_leaf. }
  split; [exact Htree|]. split; [|reflexivity].
  exact (proj1 (flattenErrors_lists_leaf_messages ObjectToString
                  sample_messages Htree)).
Defined.

Lemma registered_and_rendered_agree_witness :
  render_called_with "form" "email" (Some true) (spy_arg false JSUndefined)
    (spy_props "email" JSUndefined (Some true)) ∧
  ∃ c,
    FieldController
      (@mkFieldControllerProps spy_host FieldProps "form" "email" (λ o, o)
         (Some true)) = ControllerElement c ∧
    controller_control c = "form.control" ∧
    member (spy_props "email" JSUndefined (Some true)) "name"
      = Some (PData (JSString (controller_name c))) ∧
    member (spy_props "email" JSUndefined (Some true)) "required"
      = Some (PData (Get (properties_of (controller_rules c)) "required")) ∧
    ∃ setter : Value → Effect,
      member (spy_props "email" JSUndefined (Some true)) "onChange"
        = Some (PChange setter) ∧
      ∀ v w, ∃ event,
        setter v w = spy_onChange event w ∧
        target_name (event_target event) = controller_name c ∧
        target_value (event_target event) = v.
Proof.
  split; [exact spy_renderer_called|].
  exact (registered_and_rendered_agree
           (@mkFieldControllerProps spy_host FieldProps "form" "email"
              (λ o, o) (Some true))
           (spy_arg false JSUndefined) _ spy_renderer_called).
Defined.
